(** * A shallow embedding of the sqlopt engine

    The development follows the C++ sources under [src/engine]:
    - [include/ast.h]                the query structures;
    - [src/query_rewriter.cpp]       the logical rewriter;
    - [src/optimizer.cpp]            the AST-to-SQL serializer;
    - [src/statistics_manager.cpp]   the statistics catalog;
    - [src/semantic.cpp]             the semantic validator;
    - [src/plan_generator.cpp]       the join estimates of the plan generator.

    [std::string] is [string] (bytes compared as unsigned values),
    [std::vector] is [list], [int] and [size_t] are [Z] (with the 64-bit
    wrap-around of [size_t] written out), and the [double]s that the catalog
    stores and returns unchanged are rationals. *)

From Stdlib Require Import String Ascii List Bool Arith ZArith NArith QArith Lia.
From Stdlib Require Import Qminmax Qround Permutation Sorted DecimalString.
Import ListNotations.

Close Scope Q_scope.
Local Open Scope list_scope.
Local Open Scope string_scope.

(** ** [std::string] and [<cctype>] helpers *)

Module Str.

(** [hay.find(needle) != std::string::npos] *)
Fixpoint contains (needle hay : string) : bool :=
  if prefix needle hay then true
  else match hay with
       | EmptyString => false
       | String _ rest => contains needle rest
       end.

(** [s.find(c)] for a character: the index of the first occurrence. *)
Fixpoint find_char (c : ascii) (s : string) : option nat :=
  match s with
  | EmptyString => None
  | String d rest =>
      if Ascii.eqb c d then Some 0
      else option_map S (find_char c rest)
  end.

Definition in_range (lo hi : N) (c : ascii) : bool :=
  let n := N_of_ascii c in (N.leb lo n && N.leb n hi)%bool.

(** The "C" locale classes of [std::isspace], [std::isalnum], and the
    ECMAScript classes [\s] and [\w] of [std::regex] over [char]. *)
Definition is_space (c : ascii) : bool :=
  (in_range 9 13 c || Ascii.eqb c " ")%bool.
Definition is_upper (c : ascii) : bool := in_range 65 90 c.
Definition is_lower (c : ascii) : bool := in_range 97 122 c.
Definition is_digit (c : ascii) : bool := in_range 48 57 c.
Definition is_alnum (c : ascii) : bool :=
  (is_upper c || is_lower c || is_digit c)%bool.
Definition is_word (c : ascii) : bool :=
  (is_alnum c || Ascii.eqb c "_")%bool.

Definition tolower (c : ascii) : ascii :=
  if is_upper c then ascii_of_N (N_of_ascii c + 32) else c.
Definition toupper (c : ascii) : ascii :=
  if is_lower c then ascii_of_N (N_of_ascii c - 32) else c.

Fixpoint map_chars (f : ascii -> ascii) (s : string) : string :=
  match s with
  | EmptyString => EmptyString
  | String c rest => String (f c) (map_chars f rest)
  end.

Definition to_lower : string -> string := map_chars tolower.

Fixpoint all_chars (p : ascii -> bool) (s : string) : bool :=
  match s with
  | EmptyString => true
  | String c rest => (p c && all_chars p rest)%bool
  end.

Definition is_empty (s : string) : bool :=
  match s with EmptyString => true | _ => false end.

(** The longest prefix whose characters satisfy [p], and what follows it. *)
Fixpoint span (p : ascii -> bool) (s : string) : string * string :=
  match s with
  | EmptyString => (EmptyString, EmptyString)
  | String c rest =>
      if p c then let (w, r) := span p rest in (String c w, r)
      else (EmptyString, s)
  end.

(** [s.substr(n)] for [n <= s.size()] *)
Fixpoint drop (n : nat) (s : string) : string :=
  match n, s with
  | O, _ => s
  | S k, String _ rest => drop k rest
  | S _, EmptyString => EmptyString
  end.

(** Pieces joined by a separator, as the serializer's loops emit them. *)
Fixpoint join_with (sep : string) (l : list string) : string :=
  match l with
  | [] => ""
  | [x] => x
  | x :: rest => x ++ sep ++ join_with sep rest
  end.

(** [seg.find_first_not_of(chars)] and [seg.find_last_not_of(chars)] as
    what they leave of the text: without the leading, or the trailing,
    characters that satisfy [p]. *)
Fixpoint drop_while (p : ascii -> bool) (s : string) : string :=
  match s with
  | EmptyString => EmptyString
  | String c rest => if p c then drop_while p rest else s
  end.

Fixpoint drop_while_end (p : ascii -> bool) (s : string) : string :=
  match s with
  | EmptyString => EmptyString
  | String c rest =>
      let rest' := drop_while_end p rest in
      if (is_empty rest' && p c)%bool then EmptyString else String c rest'
  end.

End Str.

(** ** [include/ast.h] *)

Inductive JoinType : Type :=
  | INNER | LEFT | RIGHT | FULL | NATURAL
  | LEFT_ANTI | RIGHT_ANTI | FULL_OUTER_ANTI.

Record TableRef : Type := mkTableRef {
  name : string;
  alias : string;
  pushedFilters : list string
}.

Record JoinClause : Type := mkJoinClause {
  type : JoinType;
  table : TableRef;
  on_conds : list string
}.

(** [OrderItem::expr] and [SelectItem::expr], [SelectItem::alias] share their
    names with other fields; they carry the prefix of their structure. *)
Record OrderItem : Type := mkOrderItem {
  order_expr : string;
  asc : bool
}.

Record SelectItem : Type := mkSelectItem {
  expr : string;
  item_alias : string
}.

(** [Subquery] holds a raw pointer to a query; only its address is kept. *)
Record Subquery : Type := mkSubquery { q : N }.

Record SelectQuery : Type := mkSelectQuery {
  distinct : bool;
  select_items : list SelectItem;
  from_table : TableRef;
  joins : list JoinClause;
  where_conditions : list string;
  group_by : list string;
  having_conditions : list string;
  order_by : list OrderItem;
  limit : Z;
  subqueries : list Subquery
}.

Definition set_select_items (sq : SelectQuery) (v : list SelectItem) :=
  mkSelectQuery (distinct sq) v (from_table sq) (joins sq)
    (where_conditions sq) (group_by sq) (having_conditions sq) (order_by sq)
    (limit sq) (subqueries sq).

Definition set_from_table (sq : SelectQuery) (v : TableRef) :=
  mkSelectQuery (distinct sq) (select_items sq) v (joins sq)
    (where_conditions sq) (group_by sq) (having_conditions sq) (order_by sq)
    (limit sq) (subqueries sq).

Definition set_joins (sq : SelectQuery) (v : list JoinClause) :=
  mkSelectQuery (distinct sq) (select_items sq) (from_table sq) v
    (where_conditions sq) (group_by sq) (having_conditions sq) (order_by sq)
    (limit sq) (subqueries sq).

Definition set_where_conditions (sq : SelectQuery) (v : list string) :=
  mkSelectQuery (distinct sq) (select_items sq) (from_table sq) (joins sq)
    v (group_by sq) (having_conditions sq) (order_by sq)
    (limit sq) (subqueries sq).

Definition set_pushedFilters (t : TableRef) (v : list string) :=
  mkTableRef (name t) (alias t) v.

Definition set_on_conds (j : JoinClause) (v : list string) :=
  mkJoinClause (type j) (table j) v.

(** [t.alias.empty() ? t.name : t.alias] *)
Definition alias_or_name (t : TableRef) : string :=
  if Str.is_empty (alias t) then name t else alias t.

(** The pushed filters of every table of a query, the FROM table first. *)
Definition all_pushed_filters (sq : SelectQuery) : list string :=
  (pushedFilters (from_table sq)
     ++ flat_map (fun j => pushedFilters (table j)) (joins sq))%list.

(** ** The two [std::regex] patterns of the rewriter

    Both patterns are sequences of literals, [\w+], [\s+] and [\s*] in which
    every repetition is followed by a character outside its class, so the
    greedy match is the only one and no backtracking is involved.  A pattern
    is run as a small parser over the rest of the text; [regex_search] tries
    the start positions from left to right. *)

Module Regex.

Definition matcher (A : Type) : Type := string -> option (A * string).

Definition ret {A : Type} (a : A) : matcher A := fun s => Some (a, s).

Definition bind {A B : Type} (m : matcher A) (k : A -> matcher B) : matcher B :=
  fun s => match m s with
           | Some (a, r) => k a r
           | None => None
           end.

Notation "x <- m ;; k" := (bind m (fun x => k))
  (at level 61, m at next level, right associativity).
Notation "m ;;; k" := (bind m (fun _ => k))
  (at level 61, right associativity).

(** a literal *)
Definition lit (t : string) : matcher unit :=
  fun s => if prefix t s then Some (tt, Str.drop (String.length t) s) else None.

(** [(\w+)] *)
Definition word : matcher string :=
  fun s => let (w, r) := Str.span Str.is_word s in
           if Str.is_empty w then None else Some (w, r).

(** [\s*] *)
Definition spaces0 : matcher unit :=
  fun s => Some (tt, snd (Str.span Str.is_space s)).

(** [\s+] *)
Definition spaces1 : matcher unit :=
  fun s => let (w, r) := Str.span Str.is_space s in
           if Str.is_empty w then None else Some (tt, r).

Fixpoint regex_search {A : Type} (m : matcher A) (s : string) : option A :=
  match m s with
  | Some (a, _) => Some a
  | None => match s with
            | EmptyString => None
            | String _ rest => regex_search m rest
            end
  end.

(** [(\w+)\.(\w+)\s*=\s*(\w+)\.(\w+)]; the groups 1 and 3 are returned. *)
Definition table_pattern : matcher (string * string) :=
  m1 <- word ;; lit "." ;;; _ <- word ;;
  spaces0 ;;; lit "=" ;;; spaces0 ;;;
  m3 <- word ;; lit "." ;;; _ <- word ;;
  ret (m1, m3).

(** The seven groups of
    [\(SELECT\s+(\w+)\s+FROM\s+(\w+)\s+(\w+)\s+WHERE\s+(\w+)\.(\w+)\s*=\s*(\w+)\.(\w+)\)] *)
Record SubqueryMatch : Type := mkSubqueryMatch {
  select_col : string;
  table_name : string;
  table_alias : string;
  subquery_alias : string;
  subquery_col : string;
  main_alias : string;
  main_col : string
}.

Definition generic_pattern : matcher SubqueryMatch :=
  lit "(SELECT" ;;; spaces1 ;;; g1 <- word ;; spaces1 ;;;
  lit "FROM" ;;; spaces1 ;;; g2 <- word ;; spaces1 ;;; g3 <- word ;; spaces1 ;;;
  lit "WHERE" ;;; spaces1 ;;; g4 <- word ;; lit "." ;;; g5 <- word ;;
  spaces0 ;;; lit "=" ;;; spaces0 ;;;
  g6 <- word ;; lit "." ;;; g7 <- word ;; lit ")" ;;;
  ret (mkSubqueryMatch g1 g2 g3 g4 g5 g6 g7).

End Regex.

(** ** [src/query_rewriter.cpp] *)

Module QueryRewriter.

(** The test of [convertCommaJoins] for "the condition involves the table":
    [cond.find(alias + ".") != npos || cond.find(alias + " ") != npos]. *)
Definition involves (a cond : string) : bool :=
  (Str.contains (a ++ ".") cond || Str.contains (a ++ " ") cond)%bool.

(** The inner double loop that both transforms use to find out whether a
    WHERE condition is the ON condition of some join. *)
Definition is_join_condition (js : list JoinClause) (cond : string) : bool :=
  existsb (fun j => existsb (String.eqb cond) (on_conds j)) js.

Definition is_placeholder (j : JoinClause) : bool :=
  match on_conds j with
  | c :: _ => String.eqb c "1=1"
  | [] => false
  end.

(** One turn of the first loop of [convertCommaJoins]: [prev] are the joins
    before the current one, [conds] the WHERE conditions.  The second
    component tells whether the join was converted. *)
Definition convert_join (main : string) (prev : list JoinClause)
    (conds : list string) (j : JoinClause) : JoinClause * bool :=
  if is_placeholder j then
    let join_alias := alias_or_name (table j) in
    let table_aliases :=
      main :: join_alias :: map (fun p => alias_or_name (table p)) prev in
    let join_conditions :=
      filter (fun cond =>
                (involves join_alias cond
                 && existsb (fun a => negb (String.eqb a join_alias)
                                      && involves a cond) table_aliases)%bool)
             conds in
    match join_conditions with
    | [] => (j, false)
    | _ :: _ => (set_on_conds j join_conditions, true)
    end
  else (j, false).

Fixpoint convert_joins (main : string) (prev : list JoinClause)
    (conds : list string) (js : list JoinClause) : list JoinClause * bool :=
  match js with
  | [] => ([], false)
  | j :: rest =>
      let (j', made) := convert_join main prev conds j in
      let (rest', made') := convert_joins main (prev ++ [j])%list conds rest in
      (j' :: rest', (made || made')%bool)
  end.

(** [std::set<std::string>]: the elements in ascending order, once each. *)
Fixpoint set_insert (x : string) (s : list string) : list string :=
  match s with
  | [] => [x]
  | y :: rest =>
      match String.compare x y with
      | Lt => x :: s
      | Eq => s
      | Gt => y :: set_insert x rest
      end
  end.

Definition set_erase (x : string) (s : list string) : list string :=
  filter (fun y => negb (String.eqb y x)) s.

(** The aliases of the predicates [A.col = B.col] among the conditions. *)
Fixpoint collect_aliases (conds : list string) (acc : list string)
    : list string :=
  match conds with
  | [] => acc
  | cond :: rest =>
      match Regex.regex_search Regex.table_pattern cond with
      | Some (m1, m3) => collect_aliases rest (set_insert m3 (set_insert m1 acc))
      | None => collect_aliases rest acc
      end
  end.

(** "Map common aliases to table names" *)
Definition table_of_alias (a : string) : string :=
  if String.eqb a "ew" then "electionwinner"
  else if String.eqb a "c" then "candidate"
  else if String.eqb a "e" then "election"
  else if String.eqb a "p" then "party"
  else if String.eqb a "d" then "district"
  else if String.eqb a "po" then "post"
  else if String.eqb a "v" then "voter"
  else if String.eqb a "s" then "state"
  else a.

Definition reconstruct_join (main : string) (conds : list string)
    (a : string) : option JoinClause :=
  let join_conditions :=
    filter (fun cond =>
              (Str.contains (a ++ ".") cond
               && (Str.contains (main ++ ".") cond
                   || Str.contains "=" cond))%bool) conds in
  match join_conditions with
  | [] => None
  | _ :: _ =>
      Some (mkJoinClause INNER (mkTableRef (table_of_alias a) a [])
                         join_conditions)
  end.

Fixpoint reconstruct_joins (main : string) (conds : list string)
    (aliases : list string) : list JoinClause :=
  match aliases with
  | [] => []
  | a :: rest =>
      match reconstruct_join main conds a with
      | Some j => j :: reconstruct_joins main conds rest
      | None => reconstruct_joins main conds rest
      end
  end.

Definition reconstructCommaJoins (query : SelectQuery) : SelectQuery :=
  let main := alias_or_name (from_table query) in
  let table_aliases :=
    set_erase main (collect_aliases (where_conditions query) []) in
  let reconstructed_joins :=
    reconstruct_joins main (where_conditions query) table_aliases in
  match reconstructed_joins with
  | [] => query
  | _ :: _ =>
      let query' := set_joins query reconstructed_joins in
      set_where_conditions query'
        (filter (fun cond => negb (is_join_condition reconstructed_joins cond))
                (where_conditions query'))
  end.

Definition convertCommaJoins (query : SelectQuery) : SelectQuery :=
  let main := alias_or_name (from_table query) in
  let (joins', conversions_made) :=
    convert_joins main [] (where_conditions query) (joins query) in
  let remaining_conditions :=
    filter (fun cond => negb (is_join_condition joins' cond))
           (where_conditions query) in
  let query' := set_where_conditions (set_joins query joins')
                                     remaining_conditions in
  if (negb conversions_made
      && match joins query' with [] => true | _ => false end
      && match where_conditions query' with [] => false | _ => true end)%bool
  then reconstructCommaJoins query'
  else query'.

(** The joins and select items that [convertSubqueriesToJoins] substitutes
    for the three subqueries it knows by name. *)
Definition party_join : JoinClause :=
  mkJoinClause LEFT (mkTableRef "party" "p" []) ["c.PartyID = p.PartyID"].
Definition district_join : JoinClause :=
  mkJoinClause LEFT (mkTableRef "district" "d" [])
               ["c.DistrictID = d.DistrictID"].
Definition post_join : JoinClause :=
  mkJoinClause LEFT (mkTableRef "post" "po" []) ["e.PostID = po.PostID"].

Definition generic_join (m : Regex.SubqueryMatch) : JoinClause :=
  mkJoinClause LEFT
    (mkTableRef (Regex.table_name m) (Regex.table_alias m) [])
    [Regex.main_alias m ++ "." ++ Regex.main_col m ++ " = "
       ++ Regex.subquery_alias m ++ "." ++ Regex.subquery_col m].

(** The body of the loop over the select items: the join to add and the
    item to put in place of [item], or [None] when the item is kept. *)
Definition convert_item (item : SelectItem)
    : option (JoinClause * SelectItem) :=
  let e := expr item in
  if (Str.contains "(SELECT" e && Str.contains "FROM" e)%bool then
    if (Str.contains "PartyName" e && Str.contains "party" e
        && Str.contains "PartyID" e)%bool
    then Some (party_join, mkSelectItem "p.PartyName" (item_alias item))
    else if (Str.contains "DistrictName" e && Str.contains "district" e
             && Str.contains "DistrictID" e)%bool
    then Some (district_join, mkSelectItem "d.DistrictName" (item_alias item))
    else if (Str.contains "PostName" e && Str.contains "post" e
             && Str.contains "PostID" e)%bool
    then Some (post_join, mkSelectItem "po.PostName" (item_alias item))
    else match Regex.regex_search Regex.generic_pattern e with
         | Some m =>
             Some (generic_join m,
                   mkSelectItem (Regex.table_alias m ++ "." ++ Regex.select_col m)
                                (item_alias item))
         | None => None
         end
  else None.

(** [new_select_items], [additional_joins] and [conversions_made] after the
    loop. *)
Fixpoint convert_items (items : list SelectItem)
    : list SelectItem * list JoinClause * bool :=
  match items with
  | [] => ([], [], false)
  | item :: rest =>
      let '(items', joins', made) := convert_items rest in
      match convert_item item with
      | Some (j, item') => (item' :: items', j :: joins', true)
      | None => (item :: items', joins', made)
      end
  end.

Definition convertSubqueriesToJoins (query : SelectQuery) : SelectQuery :=
  let '(new_select_items, additional_joins, conversions_made) :=
    convert_items (select_items query) in
  if conversions_made
  then set_joins (set_select_items query new_select_items)
                 (joins query ++ additional_joins)%list
  else query.

Definition pushdownPredicates (query : SelectQuery) : SelectQuery :=
  match joins query with
  | [] =>
      set_where_conditions
        (set_from_table query
           (set_pushedFilters (from_table query) (where_conditions query)))
        []
  | _ :: _ => query
  end.

Definition pushdownProjections (query : SelectQuery) : SelectQuery := query.

(** [foldConstants] is a private member that [rewrite] does not call. *)
Definition foldConstants (query : SelectQuery) : SelectQuery :=
  set_where_conditions query
    (map (fun cond => if Str.contains "1=1" cond then "TRUE" else cond)
         (where_conditions query)).

(** The comparator handed to [std::sort]. *)
Definition name_lt (a b : JoinClause) : bool :=
  String.ltb (name (table a)) (name (table b)).

(** [std::sort] fixes the result only up to the order of joins with equal
    table names.  The model is the insertion sort that libstdc++ runs on
    ranges of at most sixteen elements, which keeps equal names in their
    original order. *)
Fixpoint insert_join (j : JoinClause) (l : list JoinClause)
    : list JoinClause :=
  match l with
  | [] => [j]
  | x :: rest => if name_lt x j then x :: insert_join j rest else j :: l
  end.

Fixpoint sort_joins (l : list JoinClause) : list JoinClause :=
  match l with
  | [] => []
  | j :: rest => insert_join j (sort_joins rest)
  end.

Definition reorderJoins (query : SelectQuery) : SelectQuery :=
  if Nat.ltb 1 (List.length (joins query))
  then set_joins query (sort_joins (joins query))
  else query.

Definition rewrite (query : SelectQuery) : SelectQuery :=
  reorderJoins
    (pushdownProjections
       (pushdownPredicates
          (convertSubqueriesToJoins
             (convertCommaJoins query)))).

(** The characters that [splitPredicates] trims: [" \t\n\r"]. *)
Definition is_blank (c : ascii) : bool :=
  (Ascii.eqb c " " || Ascii.eqb c "009" || Ascii.eqb c "010"
   || Ascii.eqb c "013")%bool.

Definition trim_segment (seg : string) : string :=
  Str.drop_while_end is_blank (Str.drop_while is_blank seg).

(** [push_segment]: the trimmed segment is appended unless it is empty. *)
Definition push_segment (seg : string) (result : list string) : list string :=
  let t := trim_segment seg in
  if Str.is_empty t then result else t :: result.

(** The loop of [splitPredicates] over the text from position [i] on.
    [seg] is the text between [start] and [i]; [skip] counts the characters
    of a delimiter that [i += 5] or [i += 4] still has to pass over; the
    segments that follow the current one are the result of the recursive
    call. *)
Fixpoint split_loop (s : string) (skip paren_depth : nat) (seg : string)
    : list string :=
  match s with
  | EmptyString => push_segment seg []
  | String c rest =>
      match skip with
      | S k => split_loop rest k paren_depth seg
      | O =>
          let depth :=
            if Ascii.eqb c "(" then S paren_depth
            else if Ascii.eqb c ")" then Nat.pred paren_depth
            else paren_depth in
          match depth with
          | O =>
              if prefix " AND " s
              then push_segment seg (split_loop rest 4 depth "")
              else if prefix " OR " s
              then push_segment seg (split_loop rest 3 depth "")
              else split_loop rest 0 depth (seg ++ String c "")
          | S _ => split_loop rest 0 depth (seg ++ String c "")
          end
      end
  end.

Definition splitPredicates (predicates : string) : list string :=
  split_loop predicates 0 0 "".

Definition joinPredicates (preds : list string) (op : string) : string :=
  match preds with
  | [] => ""
  | first :: rest => fold_left (fun result p => result ++ op ++ p) rest first
  end.

End QueryRewriter.

(** ** [src/optimizer.cpp]: the serializer *)

Module Optimizer.

Definition join_type_to_string (jt : JoinType) : string :=
  match jt with
  | INNER => "INNER"
  | LEFT => "LEFT"
  | FULL => "FULL"
  | NATURAL => "NATURAL"
  | LEFT_ANTI => "LEFT ANTI"
  | RIGHT_ANTI => "RIGHT ANTI"
  | FULL_OUTER_ANTI => "FULL OUTER ANTI"
  | _ => "INNER"
  end.

Definition select_item_to_sql (i : SelectItem) : string :=
  expr i ++ (if Str.is_empty (item_alias i) then ""
             else " AS " ++ item_alias i).

Definition table_to_sql (t : TableRef) : string :=
  name t ++ (if Str.is_empty (alias t) then "" else " AS " ++ alias t).

Definition join_to_sql (j : JoinClause) : string :=
  " " ++ join_type_to_string (type j) ++ " JOIN " ++ table_to_sql (table j)
    ++ match on_conds j with
       | [] => ""
       | _ :: _ => " ON " ++ Str.join_with " AND " (on_conds j)
       end.

Definition order_item_to_sql (o : OrderItem) : string :=
  order_expr o ++ (if asc o then "" else " DESC").

(** [operator<<] on an [int] *)
Definition int_to_string (z : Z) : string := NilZero.string_of_int (Z.to_int z).

Definition selectQueryToSQL (sq : SelectQuery) : string :=
  let filters := (pushedFilters (from_table sq) ++ where_conditions sq)%list in
  "SELECT "
    ++ match select_items sq with
       | [] => "*"
       | _ :: _ => Str.join_with ", " (map select_item_to_sql (select_items sq))
       end
    ++ " FROM " ++ table_to_sql (from_table sq)
    ++ String.concat "" (map join_to_sql (joins sq))
    ++ match filters with
       | [] => ""
       | _ :: _ => " WHERE " ++ Str.join_with " AND " filters
       end
    ++ match group_by sq with
       | [] => ""
       | _ :: _ => " GROUP BY " ++ Str.join_with ", " (group_by sq)
       end
    ++ match having_conditions sq with
       | [] => ""
       | _ :: _ => " HAVING " ++ Str.join_with " AND " (having_conditions sq)
       end
    ++ match order_by sq with
       | [] => ""
       | _ :: _ =>
           " ORDER BY " ++ Str.join_with ", " (map order_item_to_sql (order_by sq))
       end
    ++ (if Z.leb 0 (limit sq) then " LIMIT " ++ int_to_string (limit sq)
        else "").

(** *** The log of [Optimizer::optimize]

    The three ways in which [optimize] decides, before rewriting, that the
    query has comma joins. *)
Definition has_comma_joins (q : SelectQuery) : bool :=
  let method1 :=
    existsb (fun j => match on_conds j with
                      | [] => false
                      | c :: _ => String.eqb c "1=1"
                      end)
            (joins q) in
  let method2 :=
    if (negb method1 && negb (Nat.eqb (List.length (joins q)) 0))%bool
    then true else method1 in
  if (negb method2 && Nat.eqb (List.length (joins q)) 0
      && negb (Nat.eqb (List.length (where_conditions q)) 0))%bool
  then existsb (fun cond => (Str.contains "." cond && Str.contains "=" cond)%bool)
               (where_conditions q)
  else method2.

Definition has_subqueries (q : SelectQuery) : bool :=
  existsb (fun item => Str.contains "(SELECT" (expr item)) (select_items q).

(** The steps that the log lists, in their order, when [generatePlans]
    gives a plan.  [ultimate_subquery_conversion] tells whether the
    replacement of the subqueries in the SQL text changed the text. *)
Definition log_steps (q : SelectQuery) (ultimate_subquery_conversion : bool)
    : list string :=
  let rewritten_query := QueryRewriter.rewrite q in
  let actual_subqueries_converted :=
    (has_subqueries q
     && Nat.ltb (List.length (joins q))
                (List.length (joins rewritten_query)))%bool in
  ((if has_comma_joins q
    then ["[comma_join_conversion] Converted comma-separated tables to explicit JOINs"]
    else [])
   ++ (if (actual_subqueries_converted || ultimate_subquery_conversion)%bool
       then ["[subquery_to_join_conversion] Converted scalar subqueries to JOINs for better performance"]
       else [])
   ++ match joins rewritten_query with
      | [] =>
          "[projection_pushdown] Keeping only selected columns"
            :: match where_conditions rewritten_query with
               | [] => []
               | _ :: _ =>
                   ["[predicate_pushdown] Applied filters to table scan"]
               end
      | _ :: _ =>
          ["[join_reordering] Optimized join order";
           "[predicate_pushdown] Pushed filters to appropriate tables"]
      end)%list.

End Optimizer.

(** ** [src/statistics_manager.cpp] *)

Module Stats.

(** A [std::map] keyed by strings: the entries in the order of iteration,
    that is by ascending key, each key once. *)
Definition smap (V : Type) : Type := list (string * V).

(** [m.find(k)] *)
Fixpoint find {V : Type} (k : string) (m : smap V) : option V :=
  match m with
  | [] => None
  | (k', v) :: rest => if String.eqb k' k then Some v else find k rest
  end.

Record ColumnStats : Type := mkColumnStats {
  column_name : string;
  distinct_values : Z;
  min_value : string;
  max_value : string;
  selectivity : Q;
  histogram : list (string * Q)
}.

Record IndexInfo : Type := mkIndexInfo {
  index_name : string;
  columns : list string;
  is_unique : bool;
  cardinality : Z
}.

Record TableStatistics : Type := mkTableStatistics {
  table_name : string;
  row_count : Z;
  page_count : Z;
  column_stats : smap ColumnStats;
  available_indexes : list IndexInfo
}.

(** The member [table_stats_] *)
Definition StatisticsManager : Type := smap TableStatistics.

Definition getTableStats (stats : StatisticsManager) (table : string)
    : option TableStatistics :=
  find table stats.

(** The loop of the case-insensitive search, over the entries in key order. *)
Fixpoint find_ci {V : Type} (target : string) (m : smap V) : option V :=
  match m with
  | [] => None
  | (key, v) :: rest =>
      if String.eqb (Str.to_lower key) target then Some v
      else find_ci target rest
  end.

Definition getTableStatsCI (stats : StatisticsManager) (table : string)
    : option TableStatistics :=
  match find table stats with
  | Some ts => Some ts
  | None => find_ci (Str.to_lower table) stats
  end.

(** The loop over the buckets: the frequency of the first bucket for
    [value]. *)
Fixpoint histogram_lookup (value : string) (h : list (string * Q))
    : option Q :=
  match h with
  | [] => None
  | (v, f) :: rest =>
      if String.eqb v value then Some f else histogram_lookup value rest
  end.

Definition estimateSelectivity (stats : StatisticsManager)
    (table column op value : string) : Q :=
  match getTableStats stats table with
  | None => 1 # 10
  | Some ts =>
      match find column (column_stats ts) with
      | None => 1 # 10
      | Some cs =>
          match histogram_lookup value (histogram cs) with
          | Some f => f
          | None =>
              if String.eqb op "=" then selectivity cs
              else if (String.eqb op ">" || String.eqb op "<"
                       || String.eqb op ">=" || String.eqb op "<=")%bool
              then 3 # 10
              else if String.eqb op "LIKE" then 1 # 10
              else 1 # 10
          end
      end
  end.

(** The key that the case-insensitive loop stops at. *)
Fixpoint find_key_ci {V : Type} (target : string) (m : smap V)
    : option string :=
  match m with
  | [] => None
  | (key, _) :: rest =>
      if String.eqb (Str.to_lower key) target then Some key
      else find_key_ci target rest
  end.

Definition resolveTableNameCI (stats : StatisticsManager) (table : string)
    : string :=
  match find table stats with
  | Some _ => table
  | None =>
      match find_key_ci (Str.to_lower table) stats with
      | Some key => key
      | None => table
      end
  end.

(** [m[k] = v] on a [std::map]: the value of a present key is replaced, a
    new key goes to its place in the order of the keys. *)
Fixpoint insert_or_assign {V : Type} (k : string) (v : V) (m : smap V)
    : smap V :=
  match m with
  | [] => [(k, v)]
  | (k', v') :: rest =>
      match String.compare k k' with
      | Lt => (k, v) :: m
      | Eq => (k, v) :: rest
      | Gt => (k', v') :: insert_or_assign k v rest
      end
  end.

Definition updateTableStats (stats : StatisticsManager) (table : string)
    (ts : TableStatistics) : StatisticsManager :=
  insert_or_assign table ts stats.

Definition HISTOGRAM_BUCKETS : nat := 10.

(** [buildHistogram] divides and compares [double]s.  The quotient
    [static_cast<double>(count) / size] and the comparison [a > b] are
    taken as they come, without any assumption on them. *)
Section Histogram.

Variable double : Type.
Variable quotient : Z -> Z -> double.
Variable greater : double -> double -> bool.

(** [freq[val]++] on a [std::map<std::string, size_t>] *)
Fixpoint increment (val : string) (freq : smap Z) : smap Z :=
  match freq with
  | [] => [(val, 1%Z)]
  | (k, n) :: rest =>
      match String.compare val k with
      | Lt => (val, 1%Z) :: freq
      | Eq => (k, (n + 1)%Z) :: rest
      | Gt => (k, n) :: increment val rest
      end
  end.

Definition count_values (values : list string) : smap Z :=
  fold_left (fun freq val => increment val freq) values [].

(** [std::sort] with the comparator [a.second > b.second], as the insertion
    sort of short ranges. *)
Fixpoint insert_bucket (b : string * double) (l : list (string * double))
    : list (string * double) :=
  match l with
  | [] => [b]
  | x :: rest =>
      if greater (snd x) (snd b) then x :: insert_bucket b rest else b :: l
  end.

Fixpoint sort_buckets (l : list (string * double))
    : list (string * double) :=
  match l with
  | [] => []
  | b :: rest => insert_bucket b (sort_buckets rest)
  end.

(** The histogram that [buildHistogram] stores in [col_stats], or [None]
    when [values] is empty and [col_stats] is left as it is. *)
Definition buildHistogram (values : list string)
    : option (list (string * double)) :=
  match values with
  | [] => None
  | _ :: _ =>
      let size := Z.of_nat (List.length values) in
      Some (firstn HISTOGRAM_BUCKETS
              (sort_buckets
                 (map (fun p => (fst p, quotient (snd p) size))
                      (count_values values))))
  end.

End Histogram.

End Stats.

(** ** [src/semantic.cpp] *)

Module Semantic.

Import Stats.

Definition has_column_ci (ts : option TableStatistics) (col : string) : bool :=
  match ts with
  | None => false
  | Some t =>
      existsb (fun kv => String.eqb (Str.to_lower (fst kv)) (Str.to_lower col))
              (column_stats t)
  end.

(** [aliasToTable], a [std::unordered_map]: [m[k] = v] replaces the value of
    a key that is present and adds the key otherwise.  The order of
    iteration, which the code only uses to count, is the order of
    insertion here. *)
Fixpoint assign (k v : string) (m : list (string * string))
    : list (string * string) :=
  match m with
  | [] => [(k, v)]
  | (k', v') :: rest =>
      if String.eqb k' k then (k, v) :: rest else (k', v') :: assign k v rest
  end.

(** The resolved name of a table and the alias it goes by. *)
Definition bind_table (t : TableRef) (ts : TableStatistics)
    (aliasToTable : list (string * string)) : list (string * string) :=
  let resolved := table_name ts in
  let a := if Str.is_empty (alias t) then resolved else alias t in
  assign (Str.to_lower a) resolved aliasToTable.

(** The loop over the joins: the extended alias map, or the error of the
    first join whose table the catalog does not have. *)
Fixpoint bind_joins (stats : StatisticsManager) (js : list JoinClause)
    (aliasToTable : list (string * string))
    : string + list (string * string) :=
  match js with
  | [] => inr aliasToTable
  | j :: rest =>
      match getTableStatsCI stats (name (table j)) with
      | None => inl ("Unknown table '" ++ name (table j) ++ "'")
      | Some ts => bind_joins stats rest (bind_table (table j) ts aliasToTable)
      end
  end.

Definition findColumn (stats : StatisticsManager)
    (aliasToTable : list (string * string)) (ident : string) : bool * string :=
  match Str.find_char "." ident with
  | Some p =>
      let a := substring 0 p ident in
      let c := Str.drop (S p) ident in
      let a_l := Str.to_lower a in
      match Stats.find a_l aliasToTable with
      | None => (false, "Unknown table/alias '" ++ a ++ "'")
      | Some tbl =>
          let ts := getTableStats stats tbl in
          if has_column_ci ts c then (true, "")
          else (false, "Unknown column '" ++ c ++ "' in table '" ++ tbl ++ "'")
      end
  | None =>
      let found :=
        List.length
          (filter (fun kv => has_column_ci (getTableStats stats (snd kv)) ident)
                  aliasToTable) in
      match found with
      | O => (true, "Warning: Column '" ++ ident ++ "' not found, proceeding anyway")
      | S O => (true, "")
      | S (S _) =>
          (false, "Ambiguous column '" ++ ident ++ "', specify table/alias")
      end
  end.

Definition rev_string (s : string) : string :=
  string_of_list_ascii (rev (list_ascii_of_string s)).

(** The identifier around the first dot of a condition, when it has one:
    the letters, digits and underscores on both sides of the dot. *)
Definition dotted_ident (w : string) : option string :=
  match Str.find_char "." w with
  | Some p =>
      let left := rev_string (fst (Str.span Str.is_word
                                     (rev_string (substring 0 p w)))) in
      let right := fst (Str.span Str.is_word (Str.drop (S p) w)) in
      Some (left ++ "." ++ right)
  | None => None
  end.

(** The column of a select item: the text before [" as "] or [" AS "]. *)
Definition select_column (s : SelectItem) : string :=
  let col := expr s in
  match index 0 " as " col with
  | Some as_pos => substring 0 as_pos col
  | None =>
      match index 0 " AS " col with
      | Some as_pos => substring 0 as_pos col
      | None => col
      end
  end.

(** The three validation loops share their shape: the first failing check
    gives the error. *)
Fixpoint first_error {A : Type} (check : A -> bool * string) (l : list A)
    : option string :=
  match l with
  | [] => None
  | x :: rest =>
      let r := check x in
      if fst r then first_error check rest else Some (snd r)
  end.

Definition check_select_item (stats : StatisticsManager)
    (aliasToTable : list (string * string)) (s : SelectItem) : bool * string :=
  let col := select_column s in
  if (negb (String.eqb col "*")
      && match Str.find_char "(" col with None => true | Some _ => false end)%bool
  then findColumn stats aliasToTable col
  else (true, "").

Definition check_condition (stats : StatisticsManager)
    (aliasToTable : list (string * string)) (w : string) : bool * string :=
  match dotted_ident w with
  | Some ident => findColumn stats aliasToTable ident
  | None => (true, "")
  end.

(** [semantic_validate q stats err_out]: the result and the final content of
    [err_out], whose content on entry is [err_in]. *)
Definition semantic_validate (sq : SelectQuery) (stats : StatisticsManager)
    (err_in : string) : bool * string :=
  match getTableStatsCI stats (name (from_table sq)) with
  | None =>
      (true, "Warning: Table '" ++ name (from_table sq)
               ++ "' not found in statistics, proceeding anyway")
  | Some ts =>
      match bind_joins stats (joins sq) (bind_table (from_table sq) ts []) with
      | inl err => (false, err)
      | inr aliasToTable =>
          match first_error (check_select_item stats aliasToTable)
                            (select_items sq) with
          | Some err => (false, err)
          | None =>
              match first_error (check_condition stats aliasToTable)
                                (where_conditions sq) with
              | Some err => (false, err)
              | None =>
                  match first_error (check_condition stats aliasToTable)
                                    (having_conditions sq) with
                  | Some err => (false, err)
                  | None => (true, err_in)
                  end
              end
          end
      end
  end.

End Semantic.

(** ** [src/plan_generator.cpp]: the Join node of [generatePlans]

    The cardinalities are [size_t] values.  The costs are [double]s that
    the cost estimator computes; no cardinality of the nodes below depends on
    them, and they are left out. *)

Module PlanGenerator.

Import Stats.

(** Unsigned 64-bit arithmetic keeps the low 64 bits. *)
Definition size_t (z : Z) : Z := z mod 2 ^ 64.

Record ScanNode : Type := mkScanNode {
  scan_table : string;
  scan_alias : string;
  scan_cardinality : Z
}.

Record JoinNode : Type := mkJoinNode {
  join_type : string;
  left : ScanNode;
  right : ScanNode;
  conditions : list string;
  estimated_cardinality : Z
}.

(** The first plan of [generateScanPlans], the plain table scan, or the scan
    that [generatePlans] forces when the catalog has no such table. *)
Definition first_scan (stats : StatisticsManager) (table alias : string)
    : ScanNode :=
  match getTableStats stats table with
  | Some ts => mkScanNode table alias (row_count ts)
  | None => mkScanNode table alias 7
  end.

(** [left_stats ? left_stats->row_count : 7] *)
Definition rows_or_default (ts : option TableStatistics) : Z :=
  match ts with
  | Some t => row_count t
  | None => 7
  end.

(** The multi-table branch of [generatePlans] builds one Join node over the
    first two tables; a query without joins takes the single-table branch. *)
Definition generatePlans_join (stats : StatisticsManager) (sq : SelectQuery)
    : option JoinNode :=
  match joins sq with
  | [] => None
  | j0 :: _ =>
      let left_rows :=
        rows_or_default (getTableStatsCI stats (name (from_table sq))) in
      let right_rows :=
        rows_or_default (getTableStatsCI stats (name (table j0))) in
      Some (mkJoinNode "NESTED"
              (first_scan stats (name (from_table sq)) (alias (from_table sq)))
              (first_scan stats (name (table j0)) (alias (table j0)))
              (on_conds j0)
              (Z.max 1 (size_t (left_rows * right_rows) / 10)))
  end.

(** The estimate that [generateLeftDeepJoin] gives a join of inputs with
    [left_card] and [right_card] rows. *)
Definition left_deep_cardinality (left_card right_card : Z) : Z :=
  size_t (left_card * right_card) / 10.

(** *** The plans of [generatePlans]

    [PlanNodeType] and the plan nodes with their estimated cardinalities.
    A child is never null in the plans that [generatePlans] builds. *)

Inductive PlanNodeType : Type :=
  | SCAN | INDEX_SCAN | JOIN | FILTER | PROJECT | SORT | AGGREGATE | LIMIT.

Inductive PlanNode : Type :=
  | Scan (s : ScanNode)
  | IndexScan (table index_column alias : string) (rows : Z)
  | Join (j : JoinNode)
  | Filter (child : PlanNode) (conds : list string) (rows : Z)
  | Project (child : PlanNode) (projections : list string) (rows : Z)
  | Sort (child : PlanNode) (sort_keys : list string) (ascending : list bool)
         (rows : Z)
  | Aggregate (child : PlanNode) (group aggregates : list string) (rows : Z)
  | Limit (child : PlanNode) (limit_count : Z) (rows : Z).

(** [node->type] and [node->estimated_cardinality] *)
Definition node_type (p : PlanNode) : PlanNodeType :=
  match p with
  | Scan _ => SCAN
  | IndexScan _ _ _ _ => INDEX_SCAN
  | Join _ => JOIN
  | Filter _ _ _ => FILTER
  | Project _ _ _ => PROJECT
  | Sort _ _ _ _ => SORT
  | Aggregate _ _ _ _ => AGGREGATE
  | Limit _ _ _ => LIMIT
  end.

Definition node_rows (p : PlanNode) : Z :=
  match p with
  | Scan s => scan_cardinality s
  | IndexScan _ _ _ rows => rows
  | Join j => estimated_cardinality j
  | Filter _ _ rows => rows
  | Project _ _ rows => rows
  | Sort _ _ _ rows => rows
  | Aggregate _ _ _ rows => rows
  | Limit _ _ rows => rows
  end.

(** The node types from the root down the single children, to the scan or
    the join. *)
Fixpoint spine (p : PlanNode) : list PlanNodeType :=
  match p with
  | Scan _ | IndexScan _ _ _ _ | Join _ => [node_type p]
  | Filter child _ _ | Project child _ _ | Sort child _ _ _
  | Aggregate child _ _ _ | Limit child _ _ => node_type p :: spine child
  end.

(** The estimates [static_cast<size_t>(rows * 0.1)] and
    [static_cast<size_t>(rows * selectivity)] go through [double]
    arithmetic; the product truncated to [size_t] is taken as it comes,
    the [double] factor being given by the rational it is written as. *)
Section Plans.

Variable truncated_product : Z -> Q -> Z.

Definition generateScanPlans (stats : StatisticsManager)
    (table alias : string) : list PlanNode :=
  match getTableStats stats table with
  | None => []
  | Some ts =>
      Scan (mkScanNode table alias (row_count ts))
        :: flat_map
             (fun idx =>
                map (fun col =>
                       IndexScan table col alias
                         (truncated_product (row_count ts) (1 # 10)))
                    (columns idx))
             (available_indexes ts)
  end.

Definition generateFilterPlan (child : PlanNode) (conds : list string)
    : PlanNode :=
  match conds with
  | [] => child
  | _ :: _ => Filter child conds (truncated_product (node_rows child) (1 # 2))
  end.

Definition generateAggregatePlan (child : PlanNode)
    (group aggregates : list string) : PlanNode :=
  let num_groups :=
    match group with
    | [] => 1%Z
    | _ :: _ => Z.max 1 (node_rows child / 10)
    end in
  Aggregate child group aggregates num_groups.

Definition generateSortPlan (child : PlanNode) (order : list OrderItem)
    : PlanNode :=
  match order with
  | [] => child
  | _ :: _ =>
      Sort child (map order_expr order) (map asc order) (node_rows child)
  end.

(** [limit] is the [size_t] that the [int] limit of the query converts to. *)
Definition generateLimitPlan (child : PlanNode) (limit : Z) : PlanNode :=
  if Z.eqb limit 0 then child
  else Limit child limit (Z.min limit (node_rows child)).

Definition projection (item : SelectItem) : string :=
  expr item ++ (if Str.is_empty (item_alias item) then ""
                else " as " ++ item_alias item).

(** The operators that both branches of [generatePlans] put on a scan or on
    the join. *)
Definition finish_plan (sq : SelectQuery) (base : PlanNode) : PlanNode :=
  let filtered := generateFilterPlan base (where_conditions sq) in
  let agg := generateAggregatePlan filtered (group_by sq) [] in
  let sorted := generateSortPlan agg (order_by sq) in
  let final_plan := generateLimitPlan sorted (size_t (limit sq)) in
  match select_items sq with
  | [] => final_plan
  | _ :: _ =>
      Project final_plan (map projection (select_items sq))
              (node_rows final_plan)
  end.

(** The root nodes of the plans that [generatePlans] returns. *)
Definition generatePlans (stats : StatisticsManager) (sq : SelectQuery)
    : list PlanNode :=
  match generatePlans_join stats sq with
  | None =>
      let table := name (from_table sq) in
      let scans :=
        match generateScanPlans stats table (alias (from_table sq)) with
        | [] =>
            [Scan (mkScanNode table (alias (from_table sq))
                     (match getTableStatsCI stats table with
                      | Some ts => row_count ts
                      | None => 100%Z
                      end))]
        | scans => scans
        end in
      map (finish_plan sq) scans
  | Some jn => [finish_plan sq (Join jn)]
  end.

End Plans.

End PlanGenerator.

(** ** [src/sqlopt.cpp]: constant folding in the stand-alone prototype

    The prototype keeps a condition as its text and the set of tables it
    refers to.  The engine has no counterpart of this transform in
    [QueryRewriter::rewrite]. *)

Module Prototype.

Record Condition : Type := mkCondition {
  text : string;
  referencedTables : list string
}.

(** The text without white space, in upper case. *)
Fixpoint cleaned (t : string) : string :=
  match t with
  | EmptyString => EmptyString
  | String ch rest =>
      if Str.is_space ch then cleaned rest
      else String (Str.toupper ch) (cleaned rest)
  end.

(** [apply_rule_based_transforms], on the WHERE conditions of the query. *)
Definition apply_rule_based_transforms (conds : list Condition)
    : list Condition :=
  filter (fun c => negb (String.eqb (cleaned (text c)) "1=1")) conds.

End Prototype.

(** ** Queries and a catalog to evaluate the code on

    The queries are given as the parser of [src/parser.cpp] delivers them:
    the tokens of a WHERE condition are joined by single blanks, the ON
    condition of an explicit join is [lhs op rhs] with dotted names, and a
    table after a comma becomes an INNER join with the ON condition ["1=1"]. *)

Module Examples.

Import Stats.

Definition star : list SelectItem := [mkSelectItem "*" ""].

Definition query (from : TableRef) (js : list JoinClause)
    (conds : list string) : SelectQuery :=
  mkSelectQuery false star from js conds [] [] [] (-1) [].

(** [SELECT * FROM users u, orders o
     WHERE u.id = o.user_id AND o.status = 'A'] *)
Definition comma_join_query : SelectQuery :=
  query (mkTableRef "users" "u" [])
        [mkJoinClause INNER (mkTableRef "orders" "o" []) ["1=1"]]
        ["u . id = o . user_id"; "o . status = 'A'"].

(** [SELECT * FROM users u INNER JOIN orders o ON u.id = o.user_id
     WHERE o.status = 'A'] *)
Definition explicit_join_query : SelectQuery :=
  query (mkTableRef "users" "u" [])
        [mkJoinClause INNER (mkTableRef "orders" "o" []) ["u.id = o.user_id"]]
        ["o . status = 'A'"].

(** [SELECT * FROM users WHERE 1=1 AND id = 42] *)
Definition trivial_conjunct_query : SelectQuery :=
  query (mkTableRef "users" "" []) [] ["1 = 1"; "id = 42"].

(** [SELECT * FROM users WHERE id = 42] *)
Definition single_table_query : SelectQuery :=
  query (mkTableRef "users" "" []) [] ["id = 42"].

(** [SELECT * FROM users u RIGHT JOIN orders o ON u.id = o.user_id] *)
Definition right_join_query : SelectQuery :=
  query (mkTableRef "users" "u" [])
        [mkJoinClause RIGHT (mkTableRef "orders" "o" []) ["u.id = o.user_id"]]
        [].

(** [SELECT * FROM users u INNER JOIN ghosts g ON u.id = g.user_id] *)
Definition unknown_join_table_query : SelectQuery :=
  query (mkTableRef "users" "u" [])
        [mkJoinClause INNER (mkTableRef "ghosts" "g" []) ["u.id = g.user_id"]]
        [].

(** [SELECT * FROM users u INNER JOIN orders o ON u.id = o.user_id
     INNER JOIN ghosts g ON u.id = g.user_id
     INNER JOIN phantoms p ON u.id = p.user_id] *)
Definition two_unknown_joins_query : SelectQuery :=
  query (mkTableRef "users" "u" [])
        [mkJoinClause INNER (mkTableRef "orders" "o" []) ["u.id = o.user_id"];
         mkJoinClause INNER (mkTableRef "ghosts" "g" []) ["u.id = g.user_id"];
         mkJoinClause INNER (mkTableRef "phantoms" "p" [])
                      ["u.id = p.user_id"]]
        [].

(** [SELECT * FROM ghosts g INNER JOIN phantoms p ON g.id = p.id] *)
Definition unknown_from_table_query : SelectQuery :=
  query (mkTableRef "ghosts" "g" [])
        [mkJoinClause INNER (mkTableRef "phantoms" "p" []) ["g.id = p.id"]]
        [].

(** [SELECT * FROM products p LEFT JOIN users u ON p.owner = u.id
     INNER JOIN orders o ON o.product_id = p.id] *)
Definition two_joins_query : SelectQuery :=
  query (mkTableRef "products" "p" [])
        [mkJoinClause LEFT (mkTableRef "users" "u" []) ["p.owner = u.id"];
         mkJoinClause INNER (mkTableRef "orders" "o" [])
                      ["o.product_id = p.id"]]
        [].


(** [SELECT * FROM a, c INNER JOIN b ON b.k = a.k WHERE c.x = b.x] *)
Definition late_alias_query : SelectQuery :=
  query (mkTableRef "a" "" [])
        [mkJoinClause INNER (mkTableRef "c" "" []) ["1=1"];
         mkJoinClause INNER (mkTableRef "b" "" []) ["b.k = a.k"]]
        ["c . x = b . x"].

(** A select list with a scalar subquery of the generic form. *)
Definition subquery_query : SelectQuery :=
  mkSelectQuery false
    [mkSelectItem "(SELECT name FROM products p WHERE p.id = o.product_id)"
                  "pname"]
    (mkTableRef "orders" "o" []) [] [] [] [] [] (-1) [].

(** A subquery of the generic form beside a WHERE condition with the text
    of the ON condition that subquery conversion gives its join. *)
Definition repeated_condition_query : SelectQuery :=
  mkSelectQuery false
    [mkSelectItem "(SELECT name FROM products p WHERE p.id = o.product_id)"
                  "pname"]
    (mkTableRef "orders" "o" [])
    [mkJoinClause INNER (mkTableRef "users" "u" []) ["u.id = o.user_id"]]
    ["o.product_id = p.id"] [] [] [] (-1) [].

(** Statistics as [loadFromDatabase] computes them: a page for a hundred
    rows, and [selectivity] the number of distinct values over the number of
    rows. *)
Definition users_stats : TableStatistics :=
  mkTableStatistics "users" 100000 1000
    [("id", mkColumnStats "id" 100000 "1" "100000" 1 [])]
    [mkIndexInfo "PRIMARY" ["id"] true 0].

Definition orders_stats : TableStatistics :=
  mkTableStatistics "orders" 500000 5000
    [("status", mkColumnStats "status" 10 "A" "J" (1 # 50000)
                  [("A", (1 # 2)%Q); ("B", (1 # 4)%Q)]);
     ("user_id", mkColumnStats "user_id" 100000 "1" "100000" (1 # 5) [])]
    [].

Definition catalog : StatisticsManager :=
  [("orders", orders_stats); ("users", users_stats)].

End Examples.

(** ** The properties as the specification words them *)

Module Spec.

Import Stats.

(** "Conjuncts whose normalized text is [1=1]" *)
Definition is_trivial (cond : string) : bool :=
  String.eqb (Prototype.cleaned cond) "1=1".

(** Predicate preservation: the pushed filters of all tables together with
    the WHERE conditions after rewriting are, as a multiset, the original
    WHERE conditions without the trivial conjuncts. *)
Definition predicates_preserved (before after : SelectQuery) : Prop :=
  Permutation
    (all_pushed_filters after ++ where_conditions after)%list
    (filter (fun c => negb (is_trivial c)) (where_conditions before)).

(** The tables of a query, and those that a condition refers to, by the
    test that the rewriter applies to conditions. *)
Definition tables (sq : SelectQuery) : list TableRef :=
  from_table sq :: map table (joins sq).

Definition referenced (sq : SelectQuery) (cond : string) : list TableRef :=
  filter (fun t => QueryRewriter.involves (alias_or_name t) cond) (tables sq).

(** Pushdown by alias: a conjunct of one table goes to the pushed filters of
    that table; a conjunct of several tables stays in the WHERE conditions
    and is in no pushed filters. *)
Definition pushdown_by_alias (before after : SelectQuery) : Prop :=
  forall cond, In cond (where_conditions before) ->
    (forall t, referenced before cond = [t] ->
       exists t', In t' (tables after)
                  /\ alias_or_name t' = alias_or_name t
                  /\ In cond (pushedFilters t'))
    /\ (1 < List.length (referenced before cond) ->
          In cond (where_conditions after)
          /\ ~ In cond (all_pushed_filters after)).

(** Selectivity of [col = v]: the frequency of [v] in the histogram, else
    [1/distinct_values] capped at [selectivity]. *)
Definition equality_selectivity (cs : ColumnStats) (value : string) : Q :=
  match histogram_lookup value (histogram cs) with
  | Some f => f
  | None => Qmin (1 / inject_Z (distinct_values cs))%Q (selectivity cs)
  end.

Definition selectivity_as_specified (stats : StatisticsManager)
    (table column value : string) : Prop :=
  let estimate := estimateSelectivity stats table column in
  match getTableStats stats table with
  | None => forall op, (estimate op value == 1 # 10)%Q
  | Some ts =>
      match find column (column_stats ts) with
      | None => forall op, (estimate op value == 1 # 10)%Q
      | Some cs =>
          (estimate "=" value == equality_selectivity cs value)%Q
          /\ (estimate "<" value == 3 # 10)%Q
          /\ (estimate ">" value == 3 # 10)%Q
          /\ (estimate "<=" value == 3 # 10)%Q
          /\ (estimate ">=" value == 3 # 10)%Q
          /\ (estimate "LIKE" value == 1 # 10)%Q
      end
  end.


(** The join-type tokens of the serialization. *)
Definition join_token (jt : JoinType) : string :=
  match jt with
  | INNER => "INNER"
  | LEFT => "LEFT"
  | RIGHT => "RIGHT"
  | FULL => "FULL"
  | NATURAL => "NATURAL"
  | LEFT_ANTI => "LEFT ANTI"
  | RIGHT_ANTI => "RIGHT ANTI"
  | FULL_OUTER_ANTI => "FULL OUTER ANTI"
  end.

(** A table that is missing from the catalog, in the FROM clause or in an
    INNER join, gives a warning and lets the validation succeed. *)
Definition missing_table (stats : StatisticsManager) (sq : SelectQuery)
    : Prop :=
  getTableStatsCI stats (name (from_table sq)) = None
  \/ exists j, In j (joins sq) /\ type j = INNER
               /\ getTableStatsCI stats (name (table j)) = None.

Definition is_warning (message : string) : bool :=
  Str.contains "Warning:" message.

Definition missing_table_is_warning (stats : StatisticsManager)
    (sq : SelectQuery) : Prop :=
  missing_table stats sq ->
  forall err_in,
    let r := Semantic.semantic_validate sq stats err_in in
    fst r = true /\ is_warning (snd r) = true.

(** Join reordering: ascending by the rows of the inner side, outer joins
    staying where they are. *)
Definition inner_rows (stats : StatisticsManager) (j : JoinClause) : Z :=
  PlanGenerator.rows_or_default (getTableStatsCI stats (name (table j))).

Definition is_outer (j : JoinClause) : bool :=
  match type j with
  | LEFT | RIGHT | FULL => true
  | _ => false
  end.

Definition sorted_by_inner_rows (stats : StatisticsManager)
    (js : list JoinClause) : Prop :=
  Sorted (fun a b => (inner_rows stats a <= inner_rows stats b)%Z) js.

Definition outer_joins_in_place (before after : list JoinClause) : Prop :=
  forall i j, nth_error before i = Some j -> is_outer j = true ->
              nth_error after i = Some j.

Definition reordered_as_specified (stats : StatisticsManager)
    (sq : SelectQuery) : Prop :=
  2 <= List.length (joins sq) ->
  sorted_by_inner_rows stats (joins (QueryRewriter.reorderJoins sq))
  /\ outer_joins_in_place (joins sq) (joins (QueryRewriter.reorderJoins sq)).

End Spec.

(** The fields that no transform of the rewriter assigns. *)
Definition frame (sq : SelectQuery) :=
  (distinct sq, group_by sq, having_conditions sq, order_by sq, limit sq,
   subqueries sq).

(** Joins whose tables carry no pushed filters. *)
Definition unfiltered (js : list JoinClause) : Prop :=
  Forall (fun j => pushedFilters (table j) = []) js.

(** Two joins are in order when the second does not come before the first by
    the comparator of [reorderJoins]. *)
Definition in_name_order (a b : JoinClause) : Prop :=
  QueryRewriter.name_lt b a = false.

(** A selectivity or a frequency is a fraction of the rows. *)
Definition fraction (x : Q) : Prop := (0 <= x /\ x <= 1)%Q.

(** A catalog whose stored selectivities and histogram frequencies are
    fractions, as [loadFromDatabase] computes them. *)
Definition fractional_column (cs : Stats.ColumnStats) : Prop :=
  fraction (Stats.selectivity cs)
  /\ Forall (fun bucket => fraction (snd bucket)) (Stats.histogram cs).

Definition fractional_stats (stats : Stats.StatisticsManager) : Prop :=
  Forall (fun entry =>
            Forall (fun column => fractional_column (snd column))
                   (Stats.column_stats (snd entry)))
         stats.

(** The keys of a [std::map] come in strictly ascending order. *)
Definition keys_ascending {V : Type} (m : Stats.smap V) : Prop :=
  StronglySorted (fun a b => String.compare a b = Lt) (map fst m).

(** The count of a value in a frequency map that held [held] for it, after
    [c] more occurrences of the value. *)
Definition add_occurrences (held : option Z) (c : nat) : option Z :=
  match c with
  | O => held
  | S _ => Some (match held with Some n => n | None => 0 end + Z.of_nat c)%Z
  end.

(** What comma-join conversion may do to a join: the table and the type
    stay; the ON conditions stay, or the join had the placeholder ["1=1"]
    and gets a non-empty list of WHERE conditions that involve its alias. *)
Definition join_converted (conds : list string) (j j' : JoinClause) : Prop :=
  table j' = table j
  /\ type j' = type j
  /\ (on_conds j' = on_conds j
      \/ (QueryRewriter.is_placeholder j = true
          /\ on_conds j' <> []
          /\ Forall (fun cond =>
                       In cond conds
                       /\ QueryRewriter.involves (alias_or_name (table j))
                                                 cond = true)
                    (on_conds j'))).

(** What subquery conversion may do to a select item: the alias stays; the
    item stays, or its expression is replaced by one without subquery. *)
Definition item_converted (i i' : SelectItem) : Prop :=
  item_alias i' = item_alias i
  /\ (i' = i \/ Str.contains "(SELECT" (expr i') = false).

(** A join that join reconstruction makes up for a query with the FROM
    alias [main] and the WHERE conditions [conds]. *)
Definition reconstructed (main : string) (conds : list string)
    (j : JoinClause) : Prop :=
  type j = INNER
  /\ alias (table j) <> main
  /\ pushedFilters (table j) = []
  /\ on_conds j <> []
  /\ Forall (fun cond =>
               In cond conds
               /\ Str.contains (alias (table j) ++ ".") cond = true)
            (on_conds j).

(** A predicate that [splitPredicates] takes as one segment: it neither
    begins nor ends with a blank, has no parenthesis, and contains neither
    [" AND "] nor [" OR "], not even when a blank follows it. *)
Definition starts_clean (p : string) : bool :=
  match p with
  | EmptyString => false
  | String c _ => negb (QueryRewriter.is_blank c)
  end.

Fixpoint ends_clean (p : string) : bool :=
  match p with
  | EmptyString => false
  | String c EmptyString => negb (QueryRewriter.is_blank c)
  | String _ rest => ends_clean rest
  end.

Definition no_parenthesis (c : ascii) : bool :=
  negb (Ascii.eqb c "(" || Ascii.eqb c ")").

Definition no_delimiter (p : string) : Prop :=
  Str.all_chars no_parenthesis p = true
  /\ Str.contains " AND " (p ++ " ") = false
  /\ Str.contains " OR " (p ++ " ") = false.

Definition plain_predicate (p : string) : Prop :=
  starts_clean p = true /\ ends_clean p = true /\ no_delimiter p.

(** The query with another [distinct] flag. *)
Definition set_distinct (sq : SelectQuery) (v : bool) : SelectQuery :=
  mkSelectQuery v (select_items sq) (from_table sq) (joins sq)
    (where_conditions sq) (group_by sq) (having_conditions sq) (order_by sq)
    (limit sq) (subqueries sq).

(** Division and comparison of [double] read over the rationals, to run
    [buildHistogram] on an example. *)
Definition exact_quotient (count size : Z) : Q := (count # Z.to_pos size)%Q.

Definition exact_greater (a b : Q) : bool := negb (Qle_bool a b).

(** The node types that [generatePlans] puts on a scan or on the join,
    from the root down. *)
Definition some_of {A : Type} (l : list A) (t : PlanGenerator.PlanNodeType)
    : list PlanGenerator.PlanNodeType :=
  match l with [] => [] | _ :: _ => [t] end.

Definition operators (sq : SelectQuery) : list PlanGenerator.PlanNodeType :=
  (some_of (select_items sq) PlanGenerator.PROJECT
   ++ (if Z.eqb (PlanGenerator.size_t (limit sq)) 0 then []
       else [PlanGenerator.LIMIT])
   ++ some_of (order_by sq) PlanGenerator.SORT
   ++ [PlanGenerator.AGGREGATE]
   ++ some_of (where_conditions sq) PlanGenerator.FILTER)%list.

(** The predicates that the nodes of a plan hold: the conditions of its
    filters and of its join. *)
Fixpoint plan_conditions (p : PlanGenerator.PlanNode) : list string :=
  match p with
  | PlanGenerator.Scan _ | PlanGenerator.IndexScan _ _ _ _ => []
  | PlanGenerator.Join j => PlanGenerator.conditions j
  | PlanGenerator.Filter child conds _ =>
      (conds ++ plan_conditions child)%list
  | PlanGenerator.Project child _ _ | PlanGenerator.Sort child _ _ _
  | PlanGenerator.Aggregate child _ _ _ | PlanGenerator.Limit child _ _ =>
      plan_conditions child
  end.

(** The product of a row count and a factor, truncated, read over the
    rationals, to run [generatePlans] on an example. *)
Definition exact_truncated_product (rows : Z) (factor : Q) : Z :=
  Qfloor (inject_Z rows * factor)%Q.

(** The plan over the index scan of [users] for
    [Examples.single_table_query], and the plan over the table scan for
    the rewritten query. *)
Definition users_index_plan : PlanGenerator.PlanNode :=
  PlanGenerator.finish_plan exact_truncated_product
    Examples.single_table_query
    (PlanGenerator.IndexScan "users" "id" "" 10000).

Definition users_rewritten_plan : PlanGenerator.PlanNode :=
  PlanGenerator.finish_plan exact_truncated_product
    (QueryRewriter.rewrite Examples.single_table_query)
    (PlanGenerator.Scan (PlanGenerator.mkScanNode "users" "" 100000)).


(** * Properties of the rewriter *)

Import QueryRewriter.

(** ** The frame of the rewriter *)

Lemma frame_reconstructCommaJoins (sq : SelectQuery) :
  frame (reconstructCommaJoins sq) = frame sq.
Proof.
  unfold reconstructCommaJoins.
  destruct (reconstruct_joins _ _ _); reflexivity.
Qed.

Lemma frame_convertCommaJoins (sq : SelectQuery) :
  frame (convertCommaJoins sq) = frame sq.
Proof.
  unfold convertCommaJoins.
  destruct (convert_joins _ _ _ _) as [js made].
  match goal with |- frame (if ?b then _ else _) = _ => destruct b end.
  - now rewrite frame_reconstructCommaJoins.
  - reflexivity.
Qed.

Lemma frame_convertSubqueriesToJoins (sq : SelectQuery) :
  frame (convertSubqueriesToJoins sq) = frame sq.
Proof.
  unfold convertSubqueriesToJoins.
  destruct (convert_items _) as [[items js] made].
  destruct made; reflexivity.
Qed.

Lemma frame_pushdownPredicates (sq : SelectQuery) :
  frame (pushdownPredicates sq) = frame sq.
Proof. unfold pushdownPredicates. destruct (joins sq); reflexivity. Qed.

Lemma frame_reorderJoins (sq : SelectQuery) :
  frame (reorderJoins sq) = frame sq.
Proof. unfold reorderJoins. destruct (Nat.ltb _ _); reflexivity. Qed.

Lemma frame_rewrite (sq : SelectQuery) : frame (rewrite sq) = frame sq.
Proof.
  unfold rewrite, pushdownProjections.
  rewrite frame_reorderJoins, frame_pushdownPredicates,
    frame_convertSubqueriesToJoins.
  apply frame_convertCommaJoins.
Qed.

(** C10.  The rewriter leaves [distinct], [group_by], [having_conditions],
    [order_by] and [limit] of every query as they are; with [subqueries],
    which it does not touch either, these are all the fields besides
    [select_items], [from_table], [joins] and [where_conditions]. *)
Theorem rewrite_keeps_frame (sq : SelectQuery) :
  distinct (rewrite sq) = distinct sq
  /\ group_by (rewrite sq) = group_by sq
  /\ having_conditions (rewrite sq) = having_conditions sq
  /\ order_by (rewrite sq) = order_by sq
  /\ limit (rewrite sq) = limit sq
  /\ subqueries (rewrite sq) = subqueries sq.
Proof.
  pose proof (frame_rewrite sq) as H. unfold frame in H.
  inversion H. repeat split; reflexivity || assumption.
Qed.

(** ** Texts and patterns *)

Lemma all_chars_append (p : ascii -> bool) (s t : string) :
  Str.all_chars p s = true -> Str.all_chars p t = true ->
  Str.all_chars p (s ++ t) = true.
Proof.
  induction s as [|c s IH]; simpl; intros Hs Ht; [assumption|].
  apply andb_true_iff in Hs as [Hc Hs].
  rewrite Hc. simpl. auto.
Qed.

Lemma all_chars_weaken (p p' : ascii -> bool) (s : string) :
  (forall c, p c = true -> p' c = true) ->
  Str.all_chars p s = true -> Str.all_chars p' s = true.
Proof.
  intros Hp. induction s as [|c s IH]; simpl; [reflexivity|].
  intros H. apply andb_true_iff in H as [Hc Hs].
  rewrite (Hp _ Hc). simpl. auto.
Qed.

(** A text is not found in a text that lacks its first character. *)
Lemma contains_absent_char (p : ascii -> bool) (c : ascii) (t s : string) :
  p c = false -> Str.all_chars p s = true ->
  Str.contains (String c t) s = false.
Proof.
  intros Hc. induction s as [|d s IH]; simpl; intros Hs; [reflexivity|].
  apply andb_true_iff in Hs as [Hd Hs].
  destruct (ascii_dec c d) as [->|Hne]; [congruence|].
  destruct (ascii_dec c d); [contradiction|]. auto.
Qed.

Lemma span_all_chars (p : ascii -> bool) (s : string) :
  Str.all_chars p (fst (Str.span p s)) = true.
Proof.
  induction s as [|c s IH]; simpl; [reflexivity|].
  destruct (p c) eqn:Hc; [|reflexivity].
  destruct (Str.span p s) as [w r]. simpl in *. now rewrite Hc.
Qed.

Lemma word_is_word (s w r : string) :
  Regex.word s = Some (w, r) -> Str.all_chars Str.is_word w = true.
Proof.
  unfold Regex.word. pose proof (span_all_chars Str.is_word s) as H.
  destruct (Str.span Str.is_word s) as [w' r'].
  destruct (Str.is_empty w'); [discriminate|].
  intros E. inversion E. subst. exact H.
Qed.

Lemma regex_search_matches (A : Type) (m : Regex.matcher A) (s : string)
    (a : A) :
  Regex.regex_search m s = Some a -> exists s' r, m s' = Some (a, r).
Proof.
  induction s as [|c s IH]; simpl.
  - destruct (m EmptyString) as [[a' r]|] eqn:E; [|discriminate].
    intros H. inversion H. subst. eauto.
  - destruct (m (String c s)) as [[a' r]|] eqn:E.
    + intros H. inversion H. subst. eauto.
    + exact IH.
Qed.

(** One step of a pattern that matched. *)
Ltac bind_step H :=
  unfold Regex.bind in H at 1;
  match type of H with
  | match ?m ?s with _ => _ end = Some _ =>
      let E := fresh "E" in
      destruct (m s) as [[? ?]|] eqn:E; [|discriminate H]
  end.

Lemma generic_pattern_words (s r : string) (m : Regex.SubqueryMatch) :
  Regex.generic_pattern s = Some (m, r) ->
  Str.all_chars Str.is_word (Regex.table_alias m) = true
  /\ Str.all_chars Str.is_word (Regex.select_col m) = true.
Proof.
  unfold Regex.generic_pattern. intros H.
  do 22 bind_step H.
  unfold Regex.ret in H. inversion H. subst. simpl.
  split; eapply word_is_word; eassumption.
Qed.

(** ** Subquery conversion *)

Lemma dotted_name_has_no_subquery (a c : string) :
  Str.all_chars Str.is_word a = true -> Str.all_chars Str.is_word c = true ->
  Str.contains "(SELECT" (a ++ "." ++ c) = false.
Proof.
  intros Ha Hc.
  set (word_or_dot := fun x => (Str.is_word x || Ascii.eqb x ".")%bool).
  apply contains_absent_char with (p := word_or_dot); [reflexivity|].
  assert (W : forall x, Str.is_word x = true -> word_or_dot x = true).
  { intros x Hx. unfold word_or_dot. now rewrite Hx. }
  apply all_chars_append; [eapply all_chars_weaken; eauto|].
  simpl. eapply all_chars_weaken; eauto.
Qed.







(** ** Comma joins *)

Lemma filter_no_joins (conds : list string) :
  filter (fun cond => negb (is_join_condition [] cond)) conds = conds.
Proof.
  induction conds as [|c l IH]; [reflexivity|].
  change (c :: filter (fun cond => negb (is_join_condition [] cond)) l
          = c :: l).
  now rewrite IH.
Qed.


Lemma convert_join_table (main : string) (prev : list JoinClause)
    (conds : list string) (j : JoinClause) :
  table (fst (convert_join main prev conds j)) = table j.
Proof.
  unfold convert_join. destruct (is_placeholder j); [|reflexivity].
  destruct (filter _ conds); reflexivity.
Qed.

Lemma convert_joins_tables (main : string) (conds : list string)
    (js prev : list JoinClause) :
  map table (fst (convert_joins main prev conds js)) = map table js.
Proof.
  revert prev. induction js as [|j rest IH]; intros prev; simpl;
    [reflexivity|].
  pose proof (convert_join_table main prev conds j) as T.
  destruct (convert_join main prev conds j) as [j' made].
  specialize (IH (prev ++ [j])%list).
  destruct (convert_joins main (prev ++ [j]) conds rest) as [rest' made'].
  simpl in *. now rewrite T, IH.
Qed.

Lemma unfiltered_tables (js js' : list JoinClause) :
  map table js' = map table js -> unfiltered js -> unfiltered js'.
Proof.
  unfold unfiltered. revert js'. induction js as [|j rest IH]; intros [|j' rest'] E F;
    try discriminate; [constructor|].
  inversion E. inversion F. subst. constructor; [congruence|auto].
Qed.

Lemma unfiltered_reconstruct_joins (main : string)
    (conds aliases : list string) :
  unfiltered (reconstruct_joins main conds aliases).
Proof.
  unfold unfiltered. induction aliases as [|a rest IH]; simpl; [constructor|].
  unfold reconstruct_join. destruct (filter _ conds); [assumption|].
  constructor; [reflexivity|assumption].
Qed.

Lemma unfiltered_no_pushed (js : list JoinClause) :
  unfiltered js -> flat_map (fun j => pushedFilters (table j)) js = [].
Proof. induction 1 as [|j l E _ IH]; simpl; [|rewrite E, IH]; reflexivity. Qed.

Lemma no_pushed_unfiltered (js : list JoinClause) :
  flat_map (fun j => pushedFilters (table j)) js = [] -> unfiltered js.
Proof.
  unfold unfiltered. induction js as [|j l IH]; simpl; intros E; [constructor|].
  apply app_eq_nil in E as [E1 E2]. constructor; auto.
Qed.

Section CommaJoins.

Variable sq : SelectQuery.

(** What [convertCommaJoins] keeps in the WHERE clause: the conditions that
    are not, as texts, ON conditions of the joins it leaves. *)
Lemma where_convertCommaJoins :
  where_conditions (convertCommaJoins sq)
  = filter (fun cond =>
              negb (is_join_condition (joins (convertCommaJoins sq)) cond))
           (where_conditions sq).
Proof.
  unfold convertCommaJoins.
  destruct (convert_joins _ _ _ _) as [js made].
  destruct made; [reflexivity|].
  destruct js as [|j js]; [|reflexivity].
  cbn [negb andb joins set_where_conditions set_joins].
  rewrite filter_no_joins.
  destruct (where_conditions sq) as [|c l] eqn:W; [reflexivity|].
  unfold reconstructCommaJoins.
  cbn [where_conditions joins from_table set_where_conditions set_joins].
  destruct (reconstruct_joins _ _ _); [|reflexivity].
  cbn [where_conditions joins]. now rewrite filter_no_joins.
Qed.

Lemma from_table_convertCommaJoins :
  from_table (convertCommaJoins sq) = from_table sq.
Proof.
  unfold convertCommaJoins.
  destruct (convert_joins _ _ _ _) as [js made].
  match goal with |- from_table (if ?b then _ else _) = _ => destruct b end;
    [|reflexivity].
  unfold reconstructCommaJoins. destruct (reconstruct_joins _ _ _); reflexivity.
Qed.

Lemma select_items_convertCommaJoins :
  select_items (convertCommaJoins sq) = select_items sq.
Proof.
  unfold convertCommaJoins.
  destruct (convert_joins _ _ _ _) as [js made].
  match goal with |- select_items (if ?b then _ else _) = _ => destruct b end;
    [|reflexivity].
  unfold reconstructCommaJoins. destruct (reconstruct_joins _ _ _); reflexivity.
Qed.

Lemma unfiltered_convertCommaJoins :
  unfiltered (joins sq) -> unfiltered (joins (convertCommaJoins sq)).
Proof.
  intros F. unfold convertCommaJoins.
  pose proof (convert_joins_tables (alias_or_name (from_table sq))
                (where_conditions sq) (joins sq) []) as T.
  destruct (convert_joins _ _ _ _) as [js made]. simpl in T.
  assert (F' : unfiltered js) by (eapply unfiltered_tables; eassumption).
  match goal with |- unfiltered (joins (if ?b then _ else _)) => destruct b end;
    [|exact F'].
  unfold reconstructCommaJoins.
  match goal with
  | |- context [reconstruct_joins ?m ?c ?a] =>
      pose proof (unfiltered_reconstruct_joins m c a) as R;
      destruct (reconstruct_joins m c a)
  end; [exact F'|exact R].
Qed.


End CommaJoins.

(** ** What the later transforms do to joins and filters *)

Lemma convert_item_unfiltered (item item' : SelectItem) (j : JoinClause) :
  convert_item item = Some (j, item') -> pushedFilters (table j) = [].
Proof.
  unfold convert_item.
  destruct (_ && _)%bool; [|discriminate].
  repeat (destruct (_ && _)%bool; [intros E; inversion E; reflexivity|]).
  destruct (Regex.regex_search _ _); [|discriminate].
  intros E. inversion E. reflexivity.
Qed.

Lemma convert_items_unfiltered (items : list SelectItem) :
  unfiltered (snd (fst (convert_items items))).
Proof.
  unfold unfiltered. induction items as [|item rest IH]; simpl; [constructor|].
  destruct (convert_items rest) as [[items0 js0] made0].
  destruct (convert_item item) as [[j item1]|] eqn:C; simpl in *;
    [|assumption].
  constructor; [eapply convert_item_unfiltered; eassumption|assumption].
Qed.

Lemma joins_convertSubqueriesToJoins (sq : SelectQuery) :
  exists extra,
    joins (convertSubqueriesToJoins sq) = (joins sq ++ extra)%list
    /\ unfiltered extra.
Proof.
  unfold convertSubqueriesToJoins.
  pose proof (convert_items_unfiltered (select_items sq)) as U.
  destruct (convert_items _) as [[items js] made]. simpl in U.
  destruct made.
  - exists js. auto.
  - exists []. rewrite app_nil_r. split; [reflexivity|constructor].
Qed.

Lemma where_convertSubqueriesToJoins (sq : SelectQuery) :
  where_conditions (convertSubqueriesToJoins sq) = where_conditions sq.
Proof.
  unfold convertSubqueriesToJoins.
  destruct (convert_items _) as [[items js] []]; reflexivity.
Qed.

Lemma from_table_convertSubqueriesToJoins (sq : SelectQuery) :
  from_table (convertSubqueriesToJoins sq) = from_table sq.
Proof.
  unfold convertSubqueriesToJoins.
  destruct (convert_items _) as [[items js] []]; reflexivity.
Qed.

Lemma joins_pushdownPredicates (sq : SelectQuery) :
  joins (pushdownPredicates sq) = joins sq.
Proof. unfold pushdownPredicates. destruct (joins sq) eqn:E; auto. Qed.



(** ** Sorting the joins *)

Lemma name_lt_asym (a b : JoinClause) :
  name_lt a b = true -> name_lt b a = false.
Proof.
  unfold name_lt, String.ltb.
  rewrite (String.compare_antisym (name (table b)) (name (table a))).
  destruct (String.compare (name (table a)) (name (table b))); simpl;
    congruence.
Qed.

Lemma insert_join_permutation (j : JoinClause) (l : list JoinClause) :
  Permutation (j :: l) (insert_join j l).
Proof.
  induction l as [|x rest IH]; simpl; [reflexivity|].
  destruct (name_lt x j); [|reflexivity].
  rewrite perm_swap. now constructor.
Qed.

Lemma sort_joins_permutation (l : list JoinClause) :
  Permutation l (sort_joins l).
Proof.
  induction l as [|j rest IH]; simpl; [constructor|].
  rewrite <- insert_join_permutation. now constructor.
Qed.

Lemma insert_join_sorted (j : JoinClause) (l : list JoinClause) :
  Sorted in_name_order l -> Sorted in_name_order (insert_join j l).
Proof.
  induction 1 as [|x rest S IH H]; simpl.
  - repeat constructor.
  - destruct (name_lt x j) eqn:L.
    + constructor; [assumption|].
      destruct rest as [|y rest]; simpl in *.
      * constructor. now apply name_lt_asym.
      * destruct (name_lt y j).
        -- inversion H. now constructor.
        -- constructor. now apply name_lt_asym.
    + constructor; [now constructor|]. now constructor.
Qed.

Lemma sort_joins_sorted (l : list JoinClause) :
  Sorted in_name_order (sort_joins l).
Proof.
  induction l as [|j rest IH]; simpl; [constructor|].
  now apply insert_join_sorted.
Qed.


Lemma reorderJoins_permutation (sq : SelectQuery) :
  Permutation (joins sq) (joins (reorderJoins sq)).
Proof.
  unfold reorderJoins. destruct (Nat.ltb _ _); simpl; [|reflexivity].
  apply sort_joins_permutation.
Qed.

Lemma reorderJoins_sorted (sq : SelectQuery) :
  Sorted in_name_order (joins (reorderJoins sq)).
Proof.
  unfold reorderJoins. destruct (Nat.ltb _ _) eqn:L; simpl.
  - apply sort_joins_sorted.
  - apply Nat.ltb_ge in L.
    destruct (joins sq) as [|j [|j' l]]; simpl in L; try lia;
      repeat constructor.
Qed.


Lemma where_reorderJoins (sq : SelectQuery) :
  where_conditions (reorderJoins sq) = where_conditions sq.
Proof. unfold reorderJoins. destruct (Nat.ltb _ _); reflexivity. Qed.

Lemma from_table_reorderJoins (sq : SelectQuery) :
  from_table (reorderJoins sq) = from_table sq.
Proof. unfold reorderJoins. destruct (Nat.ltb _ _); reflexivity. Qed.


(** ** The rewriter as a whole *)

(** Where the WHERE conditions that [convertCommaJoins] keeps end up. *)
Lemma rewrite_filters (sq : SelectQuery) :
  match joins (convertSubqueriesToJoins (convertCommaJoins sq)) with
  | [] =>
      where_conditions (rewrite sq) = []
      /\ pushedFilters (from_table (rewrite sq))
         = where_conditions (convertCommaJoins sq)
  | _ :: _ =>
      where_conditions (rewrite sq) = where_conditions (convertCommaJoins sq)
      /\ from_table (rewrite sq) = from_table sq
  end.
Proof.
  unfold rewrite, pushdownProjections.
  rewrite where_reorderJoins, from_table_reorderJoins.
  unfold pushdownPredicates.
  destruct (joins (convertSubqueriesToJoins (convertCommaJoins sq))); simpl.
  - now rewrite where_convertSubqueriesToJoins.
  - now rewrite where_convertSubqueriesToJoins,
      from_table_convertSubqueriesToJoins, from_table_convertCommaJoins.
Qed.

Lemma rewrite_joins (sq : SelectQuery) :
  Permutation (joins (convertSubqueriesToJoins (convertCommaJoins sq)))
              (joins (rewrite sq)).
Proof.
  unfold rewrite, pushdownProjections.
  rewrite <- reorderJoins_permutation.
  now rewrite joins_pushdownPredicates.
Qed.

Lemma rewrite_unfiltered (sq : SelectQuery) :
  unfiltered (joins sq) -> unfiltered (joins (rewrite sq)).
Proof.
  intros U. apply unfiltered_convertCommaJoins in U.
  destruct (joins_convertSubqueriesToJoins (convertCommaJoins sq))
    as (extra & E & X).
  unfold unfiltered in *.
  eapply Permutation_Forall; [apply rewrite_joins|].
  rewrite E. apply Forall_app. auto.
Qed.

(** What the rewriter does to the WHERE conditions of a query whose tables
    carry no pushed filters. *)
Lemma rewrite_collects_predicates (sq : SelectQuery) :
  all_pushed_filters sq = [] ->
  (all_pushed_filters (rewrite sq) ++ where_conditions (rewrite sq))%list
  = filter (fun cond =>
              negb (is_join_condition (joins (convertCommaJoins sq)) cond))
           (where_conditions sq)
  /\ (all_pushed_filters (rewrite sq) = []
      \/ where_conditions (rewrite sq) = []).
Proof.
  intros P. unfold all_pushed_filters in P.
  apply app_eq_nil in P as [Pf Pj].
  pose proof (rewrite_unfiltered sq (no_pushed_unfiltered _ Pj)) as U.
  apply unfiltered_no_pushed in U.
  pose proof (rewrite_filters sq) as F.
  rewrite <- where_convertCommaJoins.
  unfold all_pushed_filters. rewrite U, app_nil_r.
  split.
  - destruct (joins (convertSubqueriesToJoins (convertCommaJoins sq)));
      destruct F as [F1 F2].
    + now rewrite F1, F2, app_nil_r.
    + now rewrite F1, F2, Pf.
  - destruct (joins (convertSubqueriesToJoins (convertCommaJoins sq)));
      destruct F as [F1 F2]; [now right|].
    left. now rewrite F2.
Qed.

Lemma converted_condition_is_joined (sq : SelectQuery) (cond : string) :
  is_join_condition (joins (convertCommaJoins sq)) cond = true ->
  exists j, In j (joins (rewrite sq)) /\ In cond (on_conds j).
Proof.
  intros J. unfold is_join_condition in J.
  apply existsb_exists in J as (j & Hj & J).
  apply existsb_exists in J as (c & Hc & J).
  apply String.eqb_eq in J. subst c.
  exists j. split; [|assumption].
  eapply Permutation_in; [apply rewrite_joins|].
  destruct (joins_convertSubqueriesToJoins (convertCommaJoins sq))
    as (extra & E & _).
  rewrite E. apply in_or_app. now left.
Qed.

(** C1 (amended).  For a query whose tables carry no pushed filters, as the
    parser delivers it, and apart from the trivial conjuncts, of which
    nothing is said here: the pushed filters of all tables followed by the
    WHERE conditions after rewriting are the original WHERE conditions, in
    their order and with their multiplicities, without those that
    comma-join conversion finds, as texts, among the ON conditions of the
    joins; each of these is an ON condition of a join of the rewritten
    query.  The pushed filters and the WHERE conditions are never both
    non-empty. *)
Theorem rewrite_preserves_predicates (sq : SelectQuery) :
  all_pushed_filters sq = [] ->
  filter (fun cond => negb (Spec.is_trivial cond))
         (all_pushed_filters (rewrite sq) ++ where_conditions (rewrite sq))
  = filter (fun cond => negb (Spec.is_trivial cond))
           (filter (fun cond =>
                      negb (is_join_condition (joins (convertCommaJoins sq))
                                              cond))
                   (where_conditions sq))
  /\ (all_pushed_filters (rewrite sq) = []
      \/ where_conditions (rewrite sq) = [])
  /\ (forall cond,
        In cond (where_conditions sq) ->
        Spec.is_trivial cond = false ->
        is_join_condition (joins (convertCommaJoins sq)) cond = true ->
        exists j, In j (joins (rewrite sq)) /\ In cond (on_conds j)).
Proof.
  intros P. destruct (rewrite_collects_predicates sq P) as [E B].
  split; [now rewrite E|]. split; [exact B|].
  intros cond _ _. apply converted_condition_is_joined.
Qed.

Lemma rewrite_preserves_predicates_witness :
  all_pushed_filters Examples.comma_join_query = []
  /\ filter (fun cond => negb (Spec.is_trivial cond))
       (all_pushed_filters (rewrite Examples.comma_join_query)
        ++ where_conditions (rewrite Examples.comma_join_query))
     = ["o . status = 'A'"].
Proof.
  split; [reflexivity|].
  destruct (rewrite_preserves_predicates Examples.comma_join_query eq_refl)
    as [E _].
  rewrite E. reflexivity.
Defined.

(** C1, as the specification states it, fails on
    [SELECT * FROM users u, orders o WHERE u.id = o.user_id AND
    o.status = 'A']: the join predicate goes to the ON condition of the
    join and is neither a pushed filter nor a WHERE condition afterwards. *)
Lemma predicates_not_preserved_as_stated :
  ~ Spec.predicates_preserved Examples.comma_join_query
      (rewrite Examples.comma_join_query).
Proof.
  unfold Spec.predicates_preserved. intros P.
  apply Permutation_length in P. vm_compute in P. discriminate.
Qed.

Lemma rewrite_no_joins (sq : SelectQuery) :
  joins (rewrite sq) = [] ->
  joins (convertSubqueriesToJoins (convertCommaJoins sq)) = [].
Proof.
  intros E. pose proof (rewrite_joins sq) as P. rewrite E in P.
  now apply Permutation_sym, Permutation_nil in P.
Qed.

Lemma rewrite_some_join (sq : SelectQuery) (j : JoinClause)
    (rest : list JoinClause) :
  joins (rewrite sq) = j :: rest ->
  joins (convertSubqueriesToJoins (convertCommaJoins sq)) <> [].
Proof.
  intros E N. pose proof (rewrite_joins sq) as P. rewrite E, N in P.
  now apply Permutation_nil in P.
Qed.

(** C4 (amended).  [pushdownPredicates] pushes only when the query has no
    joins at all: it then moves every WHERE conjunct, whatever it refers to,
    into the pushed filters of the FROM table, replacing them, and empties
    the WHERE conditions.  A query with a join is left as it is: nothing is
    pushed to any table.  The joins are unchanged in both cases.  So for the
    rewriter: when the rewritten query has no joins, the FROM table has all
    the conditions that comma-join conversion left in WHERE; when it has a
    join, these conditions are the WHERE conditions and the FROM table is
    the original one. *)
Theorem pushdown_only_without_joins (sq : SelectQuery) :
  joins (pushdownPredicates sq) = joins sq
  /\ match joins sq with
     | [] =>
         pushedFilters (from_table (pushdownPredicates sq))
         = where_conditions sq
         /\ where_conditions (pushdownPredicates sq) = []
         /\ name (from_table (pushdownPredicates sq)) = name (from_table sq)
         /\ alias (from_table (pushdownPredicates sq)) = alias (from_table sq)
     | _ :: _ => pushdownPredicates sq = sq
     end
  /\ match joins (rewrite sq) with
     | [] =>
         pushedFilters (from_table (rewrite sq))
         = where_conditions (convertCommaJoins sq)
         /\ where_conditions (rewrite sq) = []
     | _ :: _ =>
         where_conditions (rewrite sq)
         = where_conditions (convertCommaJoins sq)
         /\ from_table (rewrite sq) = from_table sq
     end.
Proof.
  split; [apply joins_pushdownPredicates|]. split.
  - unfold pushdownPredicates. destruct (joins sq); simpl; auto.
  - pose proof (rewrite_filters sq) as F.
    destruct (joins (rewrite sq)) as [|j rest] eqn:E.
    + rewrite (rewrite_no_joins _ E) in F. tauto.
    + apply rewrite_some_join in E.
      destruct (joins (convertSubqueriesToJoins (convertCommaJoins sq)));
        [contradiction|exact F].
Qed.

(** C4, as the specification states it, fails on
    [SELECT * FROM users u INNER JOIN orders o ON u.id = o.user_id WHERE
    o.status = 'A']: the conjunct refers to [o] alone and is not pushed to
    [orders]. *)
Lemma pushdown_by_alias_fails :
  ~ Spec.pushdown_by_alias Examples.explicit_join_query
      (pushdownPredicates Examples.explicit_join_query).
Proof.
  intros H.
  destruct (H "o . status = 'A'" (or_introl eq_refl)) as [H1 _].
  destruct (H1 (mkTableRef "orders" "o" []) eq_refl) as (t & Ht & _ & Hc).
  simpl in Ht. destruct Ht as [<-|[<-|[]]]; exact Hc.
Qed.

(** The same on the whole rewriter, for [SELECT * FROM users u, orders o
    WHERE u.id = o.user_id AND o.status = 'A']: the filter on [orders] stays
    a WHERE condition. *)
Lemma filter_on_joined_table_not_pushed :
  where_conditions (rewrite Examples.comma_join_query) = ["o . status = 'A'"]
  /\ all_pushed_filters (rewrite Examples.comma_join_query) = [].
Proof. split; reflexivity. Qed.

(** C9 (amended).  [reorderJoins] permutes the joins of a query into
    ascending order of their table names, compared as byte strings; so are
    the joins after [rewrite], of which it is the last step.  Neither a
    cardinality nor the type of a join is consulted. *)
Theorem reorderJoins_sorts_by_table_name (sq : SelectQuery) :
  Permutation (joins sq) (joins (reorderJoins sq))
  /\ Sorted in_name_order (joins (reorderJoins sq))
  /\ Sorted in_name_order (joins (rewrite sq)).
Proof.
  split; [apply reorderJoins_permutation|].
  split; apply reorderJoins_sorted.
Qed.

Lemma reorder_moves_outer_join :
  ~ Spec.sorted_by_inner_rows Examples.catalog
      (joins (reorderJoins Examples.two_joins_query))
  /\ ~ Spec.outer_joins_in_place (joins Examples.two_joins_query)
         (joins (reorderJoins Examples.two_joins_query)).
Proof.
  split.
  - intros S. inversion S as [|j l _ H]. subst.
    inversion H as [|j' l' R]. subst. vm_compute in R. now apply R.
  - intros O. specialize (O 0 _ eq_refl eq_refl). discriminate O.
Qed.

(** C9, as the specification states it, fails on
    [SELECT * FROM products p LEFT JOIN users u ON p.owner = u.id INNER JOIN
    orders o ON o.product_id = p.id] with 100000 users and 500000 orders:
    the joins come out as [orders], [users], which is descending in rows and
    has moved the LEFT join. *)
Lemma reorder_not_as_specified :
  ~ Spec.reordered_as_specified Examples.catalog Examples.two_joins_query.
Proof.
  intros H. destruct (H (le_n 2)) as [S _].
  now apply (proj1 reorder_moves_outer_join).
Qed.

(** C3: the code at [SELECT * FROM users WHERE 1=1 AND id = 42].  The
    rewriter keeps the trivial conjunct and pushes it to the scan of
    [users]; [foldConstants] is not among the steps of [rewrite]. *)
Theorem trivial_conjunct_survives_rewrite :
  pushedFilters (from_table (rewrite Examples.trivial_conjunct_query))
  = ["1 = 1"; "id = 42"]
  /\ Spec.is_trivial "1 = 1" = true
  /\ Optimizer.selectQueryToSQL (rewrite Examples.trivial_conjunct_query)
     = "SELECT * FROM users WHERE 1 = 1 AND id = 42".
Proof. repeat split. Qed.

(** [foldConstants], were it called, would put [TRUE] in the place of a
    condition that contains [1=1], and would not recognise the conjunct
    [1 = 1] as the parser spells it. *)
Lemma foldConstants_replaces_and_misses :
  where_conditions
    (foldConstants (Examples.query (mkTableRef "users" "" []) [] ["1=1"]))
  = ["TRUE"]
  /\ where_conditions (foldConstants Examples.trivial_conjunct_query)
     = where_conditions Examples.trivial_conjunct_query.
Proof. split; reflexivity. Qed.

(** The prototype drops every conjunct whose text is [1=1] up to blanks
    and case. *)
Lemma prototype_drops_trivial_conjuncts (conds : list Prototype.Condition) :
  Forall (fun c => Spec.is_trivial (Prototype.text c) = false)
         (Prototype.apply_rule_based_transforms conds).
Proof.
  unfold Prototype.apply_rule_based_transforms, Spec.is_trivial.
  apply Forall_forall. intros c H. apply filter_In in H as [_ H].
  now apply negb_true_iff in H.
Qed.

(** Every join type but [RIGHT] is rendered with the token of the
    specification. *)
Lemma join_tokens_but_right (jt : JoinType) :
  Optimizer.join_type_to_string jt
  = match jt with
    | RIGHT => "INNER"
    | _ => Spec.join_token jt
    end.
Proof. destruct jt; reflexivity. Qed.

(** C5: the code at [SELECT * FROM users u RIGHT JOIN orders o ON u.id =
    o.user_id].  [join_type_to_string] has no case for [RIGHT], which takes
    the default and is rendered as [INNER]. *)
Theorem right_join_rendered_as_inner :
  Optimizer.join_type_to_string RIGHT = Optimizer.join_type_to_string INNER
  /\ Optimizer.selectQueryToSQL (rewrite Examples.right_join_query)
     = "SELECT * FROM users AS u INNER JOIN orders AS o ON u.id = o.user_id".
Proof. split; reflexivity. Qed.












(** A second pass can also convert what the first could not: sorting the
    joins puts [b] before the comma join of [c], whose condition
    [c.x = b.x] then goes from WHERE to ON. *)
Lemma rewrite_again_converts_more :
  where_conditions (rewrite Examples.late_alias_query) = ["c . x = b . x"]
  /\ where_conditions (rewrite (rewrite Examples.late_alias_query)) = []
  /\ map on_conds (joins (rewrite (rewrite Examples.late_alias_query)))
     = [["b.k = a.k"]; ["c . x = b . x"]].
Proof. repeat split. Qed.

(** A second pass also drops a WHERE condition whose text the first pass
    has made the ON condition of a join for a subquery. *)
Lemma rewrite_again_drops_repeated_condition :
  where_conditions (rewrite Examples.repeated_condition_query)
  = ["o.product_id = p.id"]
  /\ map on_conds (joins (rewrite Examples.repeated_condition_query))
     = [["o.product_id = p.id"]; ["u.id = o.user_id"]]
  /\ where_conditions (rewrite (rewrite Examples.repeated_condition_query))
     = [].
Proof. repeat split. Qed.

(** * The statistics catalog *)

Import Stats.

(** C2 (amended).  An unknown table or column gives 0.10.  For a known
    column, an equality with a value of the histogram gives the frequency of
    its first bucket; when the value is not in the histogram, an equality
    gives the stored [selectivity] of the column, the range operators give
    0.30 and [LIKE] gives 0.10.  [distinct_values] is not consulted. *)
Theorem estimateSelectivity_cases (stats : StatisticsManager)
    (table column value : string) :
  let estimate := fun op => estimateSelectivity stats table column op value in
  match getTableStats stats table with
  | None => forall op, estimate op = (1 # 10)%Q
  | Some ts =>
      match find column (column_stats ts) with
      | None => forall op, estimate op = (1 # 10)%Q
      | Some cs =>
          match histogram_lookup value (histogram cs) with
          | Some f => estimate "=" = f
          | None =>
              estimate "=" = selectivity cs
              /\ estimate "<" = (3 # 10)%Q
              /\ estimate ">" = (3 # 10)%Q
              /\ estimate "<=" = (3 # 10)%Q
              /\ estimate ">=" = (3 # 10)%Q
              /\ estimate "LIKE" = (1 # 10)%Q
          end
      end
  end.
Proof.
  unfold estimateSelectivity.
  destruct (getTableStats stats table) as [ts|]; [|reflexivity].
  destruct (find column (column_stats ts)) as [cs|]; [|reflexivity].
  destruct (histogram_lookup value (histogram cs)); [reflexivity|].
  repeat split.
Qed.

(** C2, as the specification states it, fails twice on the example
    catalog.  [users.id] has 100000 distinct values and the stored
    selectivity 1: [id = 42] is estimated at 1, not at 1/100000.
    [orders.status] has the value [A] in its histogram with frequency 1/2:
    [status < 'A'] is estimated at 1/2, not at 0.30. *)
Lemma selectivity_not_as_specified :
  ~ Spec.selectivity_as_specified Examples.catalog "users" "id" "42"
  /\ ~ Spec.selectivity_as_specified Examples.catalog "orders" "status" "A".
Proof.
  split; intros H; vm_compute in H.
  - destruct H as [H _]. discriminate H.
  - destruct H as (_ & H & _). discriminate H.
Qed.

(** * The validator *)

Import Semantic.

(** The loop over the joins stops at the first join whose table the
    catalog does not have. *)
Lemma bind_joins_first_missing (stats : StatisticsManager)
    (known : list JoinClause) (j : JoinClause) (rest : list JoinClause) :
  Forall (fun k => getTableStatsCI stats (name (table k)) <> None) known ->
  getTableStatsCI stats (name (table j)) = None ->
  forall aliasToTable,
    bind_joins stats (known ++ j :: rest)%list aliasToTable
    = inl ("Unknown table '" ++ name (table j) ++ "'").
Proof.
  intros K M. induction K as [|k known Hk _ IH]; intros m.
  - cbn [app bind_joins]. now rewrite M.
  - cbn [app bind_joins].
    destruct (getTableStatsCI stats (name (table k))); [apply IH|].
    now contradiction Hk.
Qed.

Lemma first_missing_join (stats : StatisticsManager) (js : list JoinClause) :
  (exists j, In j js /\ getTableStatsCI stats (name (table j)) = None) ->
  exists known j rest,
    js = (known ++ j :: rest)%list
    /\ Forall (fun k => getTableStatsCI stats (name (table k)) <> None) known
    /\ getTableStatsCI stats (name (table j)) = None.
Proof.
  induction js as [|j0 rest IH]; intros (j & Hj & M); [destruct Hj|].
  destruct (getTableStatsCI stats (name (table j0))) as [ts|] eqn:E.
  - destruct Hj as [->|Hj]; [congruence|].
    destruct (IH (ex_intro _ j (conj Hj M))) as (known & j' & rest' & -> & K & M').
    exists (j0 :: known), j', rest'. split; [reflexivity|]. split; [|exact M'].
    constructor; [congruence|exact K].
  - exists [], j0, rest. repeat split; [constructor|exact E].
Qed.

(** C8 (amended).  When the FROM table is missing from the catalog,
    validation succeeds with the warning, without looking at the joins.
    When the FROM table is known and the table of some join, of whatever
    type, is missing, validation fails with [Unknown table] for the first
    such join: the join [j] that comes after joins whose tables are all
    known.  Such a first join exists whenever the table of some join is
    missing. *)
Theorem missing_table_verdicts (stats : StatisticsManager) (sq : SelectQuery)
    (err_in : string) :
  (getTableStatsCI stats (name (from_table sq)) = None ->
   semantic_validate sq stats err_in
   = (true, "Warning: Table '" ++ name (from_table sq)
              ++ "' not found in statistics, proceeding anyway"))
  /\ (getTableStatsCI stats (name (from_table sq)) <> None ->
      forall known j rest,
        joins sq = (known ++ j :: rest)%list ->
        Forall (fun k => getTableStatsCI stats (name (table k)) <> None)
               known ->
        getTableStatsCI stats (name (table j)) = None ->
        semantic_validate sq stats err_in
        = (false, "Unknown table '" ++ name (table j) ++ "'"))
  /\ (getTableStatsCI stats (name (from_table sq)) <> None ->
      (exists j, In j (joins sq)
                 /\ getTableStatsCI stats (name (table j)) = None) ->
      exists known j rest,
        joins sq = (known ++ j :: rest)%list
        /\ Forall (fun k => getTableStatsCI stats (name (table k)) <> None)
                  known
        /\ getTableStatsCI stats (name (table j)) = None
        /\ semantic_validate sq stats err_in
           = (false, "Unknown table '" ++ name (table j) ++ "'")).
Proof.
  assert (V : getTableStatsCI stats (name (from_table sq)) <> None ->
              forall known j rest,
                joins sq = (known ++ j :: rest)%list ->
                Forall (fun k => getTableStatsCI stats (name (table k))
                                 <> None) known ->
                getTableStatsCI stats (name (table j)) = None ->
                semantic_validate sq stats err_in
                = (false, "Unknown table '" ++ name (table j) ++ "'")).
  { intros F known j rest E K M. unfold semantic_validate.
    destruct (getTableStatsCI stats (name (from_table sq))) as [ts|];
      [|contradiction].
    rewrite E, (bind_joins_first_missing stats known j rest K M).
    reflexivity. }
  split; [|split; [exact V|]].
  - unfold semantic_validate. intros ->. reflexivity.
  - intros F M.
    destruct (first_missing_join stats (joins sq) M)
      as (known & j & rest & E & K & Mj).
    exists known, j, rest. repeat split; try assumption.
    now apply (V F known j rest).
Qed.

Lemma missing_table_verdicts_witness :
  getTableStatsCI Examples.catalog
    (name (from_table Examples.unknown_from_table_query)) = None
  /\ semantic_validate Examples.unknown_from_table_query Examples.catalog ""
     = (true,
        "Warning: Table 'ghosts' not found in statistics, proceeding anyway")
  /\ getTableStatsCI Examples.catalog
       (name (from_table Examples.two_unknown_joins_query)) <> None
  /\ semantic_validate Examples.two_unknown_joins_query Examples.catalog ""
     = (false, "Unknown table 'ghosts'").
Proof.
  split; [reflexivity|].
  split.
  { apply (proj1 (missing_table_verdicts Examples.catalog
                    Examples.unknown_from_table_query "")).
    reflexivity. }
  assert (K : getTableStatsCI Examples.catalog
                (name (from_table Examples.two_unknown_joins_query))
              <> None) by discriminate.
  split; [exact K|].
  apply (proj1 (proj2 (missing_table_verdicts Examples.catalog
                         Examples.two_unknown_joins_query "")) K
           [mkJoinClause INNER (mkTableRef "orders" "o" [])
                         ["u.id = o.user_id"]]
           (mkJoinClause INNER (mkTableRef "ghosts" "g" [])
                         ["u.id = g.user_id"])
           [mkJoinClause INNER (mkTableRef "phantoms" "p" [])
                         ["u.id = p.user_id"]]).
  - reflexivity.
  - repeat constructor. discriminate.
  - reflexivity.
Defined.

(** C8, as the specification states it, fails on
    [SELECT * FROM users u INNER JOIN ghosts g ON u.id = g.user_id] with a
    catalog that has [users] and no [ghosts]: validation returns [false]
    with ["Unknown table 'ghosts'"]. *)
Lemma missing_join_table_is_fatal :
  ~ Spec.missing_table_is_warning Examples.catalog
      Examples.unknown_join_table_query.
Proof.
  intros H.
  assert (M : Spec.missing_table Examples.catalog
                Examples.unknown_join_table_query).
  { right. eexists. split; [left; reflexivity|]. split; reflexivity. }
  destruct (H M "") as [F _]. vm_compute in F. discriminate F.
Qed.

(** * The plan generator *)

Import PlanGenerator.







Lemma left_deep_cardinality_examples :
  left_deep_cardinality 100000 500000 = 5000000000%Z
  /\ left_deep_cardinality 3 3 = 0%Z.
Proof. split; reflexivity. Qed.

(** * Further properties of the catalog *)

(** ** The order of the keys *)

Lemma string_compare_refl (s : string) : String.compare s s = Eq.
Proof.
  pose proof (String.compare_antisym s s) as H.
  destruct (String.compare s s); simpl in H; congruence.
Qed.

Lemma ascii_compare_lt_trans (a b c : ascii) :
  Ascii.compare a b = Lt -> Ascii.compare b c = Lt -> Ascii.compare a c = Lt.
Proof.
  unfold Ascii.compare. rewrite !N.compare_lt_iff. lia.
Qed.

Lemma string_compare_lt_trans (a b c : string) :
  String.compare a b = Lt -> String.compare b c = Lt ->
  String.compare a c = Lt.
Proof.
  revert b c. induction a as [|x a IH]; intros [|y b] [|z c]; simpl;
    try discriminate; try reflexivity.
  destruct (Ascii.compare x y) eqn:XY; try discriminate;
    destruct (Ascii.compare y z) eqn:YZ; try discriminate; intros H1 H2.
  - apply Ascii.compare_eq_iff in XY, YZ. subst.
    rewrite (proj2 (N.compare_eq_iff _ _) eq_refl
             : Ascii.compare z z = Eq). eauto.
  - apply Ascii.compare_eq_iff in XY. subst. now rewrite YZ.
  - apply Ascii.compare_eq_iff in YZ. subst. now rewrite XY.
  - now rewrite (ascii_compare_lt_trans _ _ _ XY YZ).
Qed.

Lemma string_compare_gt_lt (a b : string) :
  String.compare a b = Gt -> String.compare b a = Lt.
Proof.
  intros H. rewrite String.compare_antisym, H. reflexivity.
Qed.

Lemma string_compare_neq (a b : string) :
  String.compare a b <> Eq -> String.eqb b a = false.
Proof.
  intros H. apply String.eqb_neq. intros ->.
  now rewrite string_compare_refl in H.
Qed.

(** ** Lookup *)

Lemma find_some_in (V : Type) (k : string) (v : V) (m : smap V) :
  find k m = Some v -> In (k, v) m.
Proof.
  induction m as [|[k' v'] rest IH]; simpl; [discriminate|].
  destruct (String.eqb_spec k' k) as [->|_].
  - intros E. inversion E. now left.
  - intros E. right. auto.
Qed.

Lemma find_key_ci_found (V : Type) (target k : string) (m : smap V) :
  find_key_ci target m = Some k ->
  Str.to_lower k = target /\ find k m = find_ci target m.
Proof.
  induction m as [|[key v] rest IH]; simpl; [discriminate|].
  destruct (String.eqb_spec (Str.to_lower key) target) as [E|N].
  - intros K. inversion K. subst k. now rewrite String.eqb_refl.
  - intros K. destruct (IH K) as [L F]. split; [assumption|].
    destruct (String.eqb_spec key k) as [->|_]; [contradiction|assumption].
Qed.

Lemma find_key_ci_missing (V : Type) (target : string) (m : smap V) :
  find_key_ci target m = None -> find_ci target m = None.
Proof.
  induction m as [|[key v] rest IH]; simpl; [reflexivity|].
  destruct (String.eqb (Str.to_lower key) target); [discriminate|assumption].
Qed.

(** X1.  Looking a table up under the name that [resolveTableNameCI] gives
    is the case-insensitive lookup: [getTableStats] of the resolved name
    returns what [getTableStatsCI] returns for the name itself. *)
Theorem resolved_name_lookup (stats : StatisticsManager) (table : string) :
  getTableStats stats (resolveTableNameCI stats table)
  = getTableStatsCI stats table.
Proof.
  unfold getTableStats, getTableStatsCI, resolveTableNameCI.
  destruct (find table stats) as [ts|] eqn:F; [exact F|].
  destruct (find_key_ci (Str.to_lower table) stats) as [k|] eqn:K.
  - now apply find_key_ci_found in K as [_ ->].
  - rewrite F. symmetry. now apply find_key_ci_missing.
Qed.

(** X2.  The resolved name is the given name up to the case of its letters,
    and resolving it again changes nothing. *)
Theorem resolved_name_stable (stats : StatisticsManager) (table : string) :
  Str.to_lower (resolveTableNameCI stats table) = Str.to_lower table
  /\ resolveTableNameCI stats (resolveTableNameCI stats table)
     = resolveTableNameCI stats table.
Proof.
  unfold resolveTableNameCI.
  destruct (find table stats) as [ts|] eqn:F.
  - split; [reflexivity|]. now rewrite F.
  - destruct (find_key_ci (Str.to_lower table) stats) as [k|] eqn:K.
    + destruct (find_key_ci_found _ _ _ _ K) as [L _].
      split; [assumption|].
      destruct (find k stats); [reflexivity|]. now rewrite L, K.
    + split; [reflexivity|]. now rewrite F, K.
Qed.

Lemma find_ci_none (V : Type) (target : string) (m : smap V) :
  find_ci target m = None <->
  (forall k v, In (k, v) m -> Str.to_lower k <> target).
Proof.
  induction m as [|[key v] rest IH]; simpl.
  - split; [intros _ k v []|reflexivity].
  - destruct (String.eqb_spec (Str.to_lower key) target) as [E|N].
    + split; [discriminate|]. intros H. now destruct (H key v (or_introl eq_refl)).
    + rewrite IH. split.
      * intros H k w [K|K]; [inversion K; now subst|eauto].
      * intros H k w K. eauto.
Qed.

(** X3.  The case-insensitive lookup misses exactly when no key of the
    catalog equals the name up to case. *)
Theorem getTableStatsCI_misses (stats : StatisticsManager) (table : string) :
  getTableStatsCI stats table = None <->
  (forall key ts, In (key, ts) stats ->
                  Str.to_lower key <> Str.to_lower table).
Proof.
  unfold getTableStatsCI. split.
  - destruct (find table stats); [discriminate|]. apply find_ci_none.
  - intros H. destruct (find table stats) as [ts|] eqn:F.
    + apply find_some_in in F. now destruct (H _ _ F).
    + now apply find_ci_none.
Qed.

Lemma find_insert_or_assign (V : Type) (k : string) (v : V) (m : smap V) :
  find k (insert_or_assign k v m) = Some v.
Proof.
  induction m as [|[k' v'] rest IH]; simpl.
  - now rewrite String.eqb_refl.
  - destruct (String.compare k k') eqn:C; simpl.
    + now rewrite String.eqb_refl.
    + now rewrite String.eqb_refl.
    + rewrite string_compare_neq; [assumption|congruence].
Qed.

Lemma find_insert_or_assign_other (V : Type) (k k0 : string) (v : V)
    (m : smap V) :
  k0 <> k -> find k0 (insert_or_assign k v m) = find k0 m.
Proof.
  intros N. assert (E : String.eqb k k0 = false)
    by (apply String.eqb_neq; congruence).
  induction m as [|[k' v'] rest IH]; simpl.
  - now rewrite E.
  - destruct (String.compare k k') eqn:C; simpl.
    + apply String.compare_eq_iff in C. subst k'. now rewrite E.
    + now rewrite E.
    + now rewrite IH.
Qed.

(** X4.  After [updateTableStats], the exact and the case-insensitive
    lookup of the updated name return the new statistics, and the exact
    lookup of every other name is as before. *)
Theorem lookup_after_update (stats : StatisticsManager) (table : string)
    (ts : TableStatistics) :
  getTableStats (updateTableStats stats table ts) table = Some ts
  /\ getTableStatsCI (updateTableStats stats table ts) table = Some ts
  /\ (forall other, other <> table ->
        getTableStats (updateTableStats stats table ts) other
        = getTableStats stats other).
Proof.
  unfold getTableStats, getTableStatsCI, updateTableStats.
  rewrite find_insert_or_assign. repeat split.
  intros other N. now apply find_insert_or_assign_other.
Qed.

Lemma lookup_after_update_witness :
  "orders" <> "users"
  /\ getTableStats (updateTableStats Examples.catalog "users"
                                     Examples.orders_stats) "orders"
     = Some Examples.orders_stats.
Proof.
  assert (N : "orders" <> "users") by discriminate.
  split; [exact N|].
  rewrite (proj2 (proj2 (lookup_after_update Examples.catalog "users"
                           Examples.orders_stats)) "orders" N).
  reflexivity.
Defined.

Lemma histogram_lookup_in (value : string) (f : Q)
    (h : list (string * Q)) :
  histogram_lookup value h = Some f -> In (value, f) h.
Proof.
  induction h as [|[v g] rest IH]; simpl; [discriminate|].
  destruct (String.eqb_spec v value) as [->|_].
  - intros E. inversion E. now left.
  - intros E. right. auto.
Qed.

(** X5.  On a catalog whose stored selectivities and histogram frequencies
    are fractions, every estimate of [estimateSelectivity] is a fraction,
    whatever the table, the column, the operator and the value. *)
Theorem estimateSelectivity_fraction (stats : StatisticsManager)
    (table column op value : string) :
  fractional_stats stats ->
  fraction (estimateSelectivity stats table column op value).
Proof.
  intros W. unfold estimateSelectivity, getTableStats.
  assert (T : fraction (1 # 10)) by (split; discriminate).
  assert (R : fraction (3 # 10)) by (split; discriminate).
  destruct (find table stats) as [ts|] eqn:F; [|exact T].
  destruct (find column (column_stats ts)) as [cs|] eqn:C; [|exact T].
  apply find_some_in in F, C.
  unfold fractional_stats in W. rewrite Forall_forall in W.
  specialize (W _ F). rewrite Forall_forall in W.
  destruct (W _ C) as [S H]. simpl in S, H.
  destruct (histogram_lookup value (histogram cs)) as [f|] eqn:L.
  - apply histogram_lookup_in in L. rewrite Forall_forall in H.
    exact (H _ L).
  - destruct (String.eqb op "="); [exact S|].
    destruct (_ || _)%bool; [exact R|].
    destruct (String.eqb op "LIKE"); exact T.
Qed.

Lemma estimateSelectivity_fraction_witness :
  fractional_stats Examples.catalog
  /\ fraction (estimateSelectivity Examples.catalog "orders" "status" "="
                                   "A").
Proof.
  assert (W : fractional_stats Examples.catalog).
  { unfold fractional_stats, fractional_column, fraction.
    repeat constructor; simpl; discriminate. }
  split; [exact W|].
  apply (estimateSelectivity_fraction Examples.catalog "orders" "status"
           "=" "A" W).
Defined.

(** ** Histograms *)

Lemma increment_keys (val k : string) (freq : smap Z) :
  In k (map fst (increment val freq)) <-> k = val \/ In k (map fst freq).
Proof.
  induction freq as [|[k' n] rest IH]; simpl; [intuition|].
  destruct (String.compare val k') eqn:C; simpl.
  - apply String.compare_eq_iff in C. subst. intuition.
  - intuition.
  - rewrite IH. intuition.
Qed.

Lemma increment_ascending (val : string) (freq : smap Z) :
  keys_ascending freq -> keys_ascending (increment val freq).
Proof.
  unfold keys_ascending.
  induction freq as [|[k n] rest IH]; simpl; intros S.
  - repeat constructor.
  - inversion S as [|? ? S' F]. subst.
    destruct (String.compare val k) eqn:C; simpl.
    + now constructor.
    + constructor; [assumption|]. constructor; [assumption|].
      eapply Forall_impl; [|exact F]. intros a H. simpl in H.
      eapply string_compare_lt_trans; eassumption.
    + constructor; [auto|].
      apply Forall_forall. intros a H. apply increment_keys in H as [->|H].
      * now apply string_compare_gt_lt.
      * rewrite Forall_forall in F. auto.
Qed.

Lemma find_below (V : Type) (val : string) (m : smap V) :
  Forall (fun k => String.compare val k = Lt) (map fst m) ->
  find val m = None.
Proof.
  induction m as [|[k v] rest IH]; simpl; intros F; [reflexivity|].
  inversion F as [|? ? L F']. subst. simpl in L.
  rewrite string_compare_neq; [auto|congruence].
Qed.

Lemma find_increment (val v : string) (freq : smap Z) :
  keys_ascending freq ->
  find v (increment val freq)
  = if String.eqb val v
    then Some (match find val freq with Some n => n + 1 | None => 1 end)%Z
    else find v freq.
Proof.
  unfold keys_ascending.
  induction freq as [|[k n] rest IH]; simpl; intros S; [reflexivity|].
  inversion S as [|? ? S' F]. subst.
  destruct (String.compare val k) eqn:C; simpl.
  - apply String.compare_eq_iff in C. subst k. rewrite String.eqb_refl.
    destruct (String.eqb val v); reflexivity.
  - rewrite (string_compare_neq val k) by congruence.
    rewrite (find_below _ val rest); [reflexivity|].
    eapply Forall_impl; [|exact F]. intros a H. simpl in H.
    eapply string_compare_lt_trans; eassumption.
  - rewrite (IH S'). rewrite (string_compare_neq val k) by congruence.
    destruct (String.eqb_spec val v) as [->|N]; [|reflexivity].
    now rewrite (string_compare_neq v k) by congruence.
Qed.

Lemma add_occurrences_next (held : option Z) (c : nat) :
  add_occurrences
    (Some (match held with Some n => n + 1 | None => 1 end)%Z) c
  = add_occurrences held (S c).
Proof.
  unfold add_occurrences. destruct c, held; cbv beta iota; f_equal; lia.
Qed.

Lemma fold_increment (values : list string) (acc : smap Z) :
  keys_ascending acc ->
  keys_ascending (fold_left (fun freq val => increment val freq) values acc)
  /\ (forall v,
        find v (fold_left (fun freq val => increment val freq) values acc)
        = add_occurrences (find v acc) (count_occ string_dec values v)).
Proof.
  revert acc. induction values as [|val rest IH]; simpl; intros acc S.
  - split; [assumption|reflexivity].
  - destruct (IH _ (increment_ascending val acc S)) as [S' F].
    split; [assumption|]. intros v. rewrite F, (find_increment _ _ _ S).
    destruct (string_dec val v) as [->|N].
    + rewrite String.eqb_refl. apply add_occurrences_next.
    + apply String.eqb_neq in N. now rewrite N.
Qed.

Lemma ascending_nodup (keys : list string) :
  StronglySorted (fun a b => String.compare a b = Lt) keys -> NoDup keys.
Proof.
  induction 1 as [|k rest S IH F]; constructor; [|assumption].
  intros H. rewrite Forall_forall in F. specialize (F _ H).
  now rewrite string_compare_refl in F.
Qed.

Lemma find_of_nodup (V : Type) (k : string) (v : V) (m : smap V) :
  NoDup (map fst m) -> In (k, v) m -> find k m = Some v.
Proof.
  induction m as [|[k' v'] rest IH]; simpl; intros N H; [destruct H|].
  inversion N as [|? ? N1 N2]. subst.
  destruct H as [H|H].
  - inversion H. subst. now rewrite String.eqb_refl.
  - destruct (String.eqb_spec k' k) as [->|_]; [|auto].
    destruct N1. now apply (in_map fst) in H.
Qed.

(** What the frequency map of [buildHistogram] holds: every value of the
    input once, with the number of its occurrences. *)
Lemma count_values_counts (values : list string) :
  NoDup (map fst (count_values values))
  /\ (forall v n, In (v, n) (count_values values) <->
                  In v values
                  /\ n = Z.of_nat (count_occ string_dec values v)).
Proof.
  destruct (fold_increment values [] (SSorted_nil _)) as [S F].
  fold (count_values values) in S, F.
  assert (N : NoDup (map fst (count_values values)))
    by (apply ascending_nodup, S).
  split; [assumption|]. intros v n. specialize (F v). simpl in F. split.
  - intros H. rewrite (find_of_nodup _ _ _ _ N H) in F.
    destruct (count_occ string_dec values v) as [|c] eqn:C;
      [discriminate|].
    split; [apply (count_occ_In string_dec); lia|].
    simpl in F. inversion F. lia.
  - intros [H ->]. apply (count_occ_In string_dec) in H.
    apply find_some_in. rewrite F.
    destruct (count_occ string_dec values v); [lia|]. simpl. f_equal.
Qed.

Lemma in_firstn (A : Type) (x : A) (n : nat) (l : list A) :
  In x (firstn n l) -> In x l.
Proof.
  revert n. induction l as [|y l IH]; intros [|n]; simpl; try tauto.
  intros [H|H]; eauto.
Qed.

Lemma nodup_firstn (A : Type) (n : nat) (l : list A) :
  NoDup l -> NoDup (firstn n l).
Proof.
  intros N. revert n. induction N as [|x l H N IH]; intros [|n]; simpl;
    try constructor; [|apply IH].
  intros K. apply H. now apply in_firstn in K.
Qed.

Lemma sorted_firstn (A : Type) (R : A -> A -> Prop) (n : nat) (l : list A) :
  Sorted R l -> Sorted R (firstn n l).
Proof.
  intros S. revert n. induction S as [|x l S IH H]; intros [|n]; simpl;
    try constructor; [apply IH|].
  destruct H as [|y l' H]; destruct n; simpl; constructor. assumption.
Qed.

Section HistogramFacts.

Variable double : Type.
Variable quotient : Z -> Z -> double.
Variable greater : double -> double -> bool.

Lemma insert_bucket_permutation (b : string * double)
    (l : list (string * double)) :
  Permutation (b :: l) (insert_bucket double greater b l).
Proof.
  induction l as [|x rest IH]; simpl; [reflexivity|].
  destruct (greater (snd x) (snd b)); [|reflexivity].
  rewrite perm_swap. now constructor.
Qed.

Lemma sort_buckets_permutation (l : list (string * double)) :
  Permutation l (sort_buckets double greater l).
Proof.
  induction l as [|b rest IH]; simpl; [constructor|].
  rewrite <- insert_bucket_permutation. now constructor.
Qed.

Lemma buildHistogram_some (values : list string)
    (h : list (string * double)) :
  buildHistogram double quotient greater values = Some h ->
  h = firstn HISTOGRAM_BUCKETS
        (sort_buckets double greater
           (map (fun p => (fst p, quotient (snd p)
                                           (Z.of_nat (List.length values))))
                (count_values values))).
Proof.
  unfold buildHistogram. destruct values as [|v0 rest]; [discriminate|].
  intros E. injection E as E. symmetry. exact E.
Qed.

(** The buckets before they are sorted and cut. *)
Lemma buckets_of_counts (values : list string) (v : string) (f : double) :
  In (v, f)
     (map (fun p => (fst p, quotient (snd p)
                                     (Z.of_nat (List.length values))))
          (count_values values))
  <-> In v values
      /\ f = quotient (Z.of_nat (count_occ string_dec values v))
                      (Z.of_nat (List.length values)).
Proof.
  destruct (count_values_counts values) as [_ C]. rewrite in_map_iff. split.
  - intros ([k n] & E & H). simpl in E. inversion E. subst.
    apply C in H as [H ->]. auto.
  - intros [H ->]. exists (v, Z.of_nat (count_occ string_dec values v)).
    split; [reflexivity|]. apply C. auto.
Qed.

(** X6.  A histogram that [buildHistogram] stores has at most
    [HISTOGRAM_BUCKETS] buckets, no value twice, and every bucket holds a
    value of the input with the quotient of the number of its occurrences
    by the number of values. *)
Theorem histogram_buckets (values : list string)
    (h : list (string * double)) :
  buildHistogram double quotient greater values = Some h ->
  List.length h <= HISTOGRAM_BUCKETS
  /\ NoDup (map fst h)
  /\ (forall v f, In (v, f) h ->
        In v values
        /\ f = quotient (Z.of_nat (count_occ string_dec values v))
                        (Z.of_nat (List.length values))).
Proof.
  intros E. apply buildHistogram_some in E. subst h.
  split; [apply firstn_le_length|]. split.
  - rewrite <- firstn_map. apply nodup_firstn.
    eapply Permutation_NoDup;
      [apply Permutation_map, sort_buckets_permutation|].
    rewrite map_map. simpl. apply count_values_counts.
  - intros v f H. apply in_firstn in H.
    eapply Permutation_in in H;
      [|apply Permutation_sym, sort_buckets_permutation].
    now apply buckets_of_counts.
Qed.

Lemma histogram_holds_value (values : list string)
    (h : list (string * double)) (v : string) :
  buildHistogram double quotient greater values = Some h ->
  List.length (nodup string_dec values) <= HISTOGRAM_BUCKETS ->
  In v values ->
  exists f, In (v, f) h.
Proof.
  intros E L H. apply buildHistogram_some in E. subst h.
  destruct (count_values_counts values) as [N C].
  assert (P : Permutation (map fst (count_values values))
                          (nodup string_dec values)).
  { apply NoDup_Permutation; [assumption|apply NoDup_nodup|].
    intros k. rewrite nodup_In, in_map_iff. split.
    - intros ([k' n] & <- & K). now apply C in K.
    - intros K. eexists (k, _). split; [reflexivity|]. apply C. eauto. }
  apply Permutation_length in P. rewrite length_map in P.
  exists (quotient (Z.of_nat (count_occ string_dec values v))
                   (Z.of_nat (List.length values))).
  rewrite firstn_all2.
  - eapply Permutation_in; [apply sort_buckets_permutation|].
    now apply buckets_of_counts.
  - rewrite <- (Permutation_length (sort_buckets_permutation _)).
    rewrite length_map. lia.
Qed.

(** X7.  When the input has at most [HISTOGRAM_BUCKETS] distinct values,
    [buildHistogram] stores a histogram in which every value of the input
    has a bucket. *)
Theorem histogram_complete (values : list string) (v : string) :
  List.length (nodup string_dec values) <= HISTOGRAM_BUCKETS ->
  In v values ->
  exists h f,
    buildHistogram double quotient greater values = Some h
    /\ In (v, f) h.
Proof.
  intros L H.
  assert (E : exists h,
             buildHistogram double quotient greater values = Some h).
  { destruct values as [|x rest]; [destruct H|]. eexists. reflexivity. }
  destruct E as [h E].
  destruct (histogram_holds_value values h v E L H) as [f I].
  exists h, f. auto.
Qed.

Hypothesis greater_asym :
  forall a b, greater a b = true -> greater b a = false.

Lemma insert_bucket_sorted (b : string * double)
    (l : list (string * double)) :
  Sorted (fun x y => greater (snd y) (snd x) = false) l ->
  Sorted (fun x y => greater (snd y) (snd x) = false)
         (insert_bucket double greater b l).
Proof.
  induction 1 as [|x rest S IH H]; simpl.
  - repeat constructor.
  - destruct (greater (snd x) (snd b)) eqn:G.
    + constructor; [assumption|].
      destruct rest as [|y rest]; simpl in *.
      * constructor. now apply greater_asym.
      * destruct (greater (snd y) (snd b)).
        -- inversion H. now constructor.
        -- constructor. now apply greater_asym.
    + constructor; [now constructor|]. now constructor.
Qed.

(** X8.  The buckets of the histogram are in descending order of
    frequency: no bucket has a frequency greater than that of the bucket
    before it.  This holds for every comparison [a > b] that is never
    true in both directions. *)
Theorem histogram_descending (values : list string)
    (h : list (string * double)) :
  buildHistogram double quotient greater values = Some h ->
  Sorted (fun x y => greater (snd y) (snd x) = false) h.
Proof.
  intros E. apply buildHistogram_some in E. subst h.
  apply sorted_firstn.
  induction (map _ (count_values values)) as [|b l IH]; simpl;
    [constructor|].
  now apply insert_bucket_sorted.
Qed.

End HistogramFacts.

Lemma exact_greater_asym (a b : Q) :
  exact_greater a b = true -> exact_greater b a = false.
Proof.
  unfold exact_greater. rewrite negb_true_iff, negb_false_iff. intros H.
  apply Qle_bool_iff, Qlt_le_weak, Qnot_le_lt. intros L.
  apply Qle_bool_iff in L. congruence.
Qed.

Lemma histogram_buckets_witness :
  List.length [("b", (2 # 3)%Q); ("a", (1 # 3)%Q)] <= Stats.HISTOGRAM_BUCKETS
  /\ NoDup (map fst [("b", (2 # 3)%Q); ("a", (1 # 3)%Q)])
  /\ (forall v f, In (v, f) [("b", (2 # 3)%Q); ("a", (1 # 3)%Q)] ->
        In v ["b"; "a"; "b"]
        /\ f = exact_quotient
                 (Z.of_nat (count_occ string_dec ["b"; "a"; "b"] v))
                 (Z.of_nat (List.length ["b"; "a"; "b"]))).
Proof.
  apply (histogram_buckets Q exact_quotient exact_greater ["b"; "a"; "b"]).
  reflexivity.
Defined.

Lemma histogram_complete_witness :
  exists h f,
    buildHistogram Q exact_quotient exact_greater ["b"; "a"; "b"] = Some h
    /\ In ("a", f) h.
Proof.
  apply (histogram_complete Q exact_quotient exact_greater ["b"; "a"; "b"]).
  - vm_compute. lia.
  - simpl. auto.
Defined.

Lemma histogram_descending_witness :
  Sorted (fun x y => exact_greater (snd y) (snd x) = false)
         [("b", (2 # 3)%Q); ("a", (1 # 3)%Q)].
Proof.
  apply (histogram_descending Q exact_quotient exact_greater
           exact_greater_asym ["b"; "a"; "b"]).
  reflexivity.
Defined.

(** * Further properties of the rewriter *)

Lemma filter_forall (A : Type) (f : A -> bool) (l : list A) :
  Forall (fun x => In x l /\ f x = true) (filter f l).
Proof.
  apply Forall_forall. intros x H. now apply filter_In in H.
Qed.

Lemma convert_join_converted (main : string) (prev : list JoinClause)
    (conds : list string) (j : JoinClause) :
  join_converted conds j (fst (convert_join main prev conds j)).
Proof.
  unfold convert_join, join_converted.
  destruct (is_placeholder j) eqn:P; [|simpl; auto].
  match goal with
  | |- context [filter ?f conds] =>
      pose proof (filter_forall _ f conds) as F; destruct (filter f conds)
  end; simpl; [auto|].
  repeat split. right. repeat split; [discriminate|].
  eapply Forall_impl; [|exact F]. simpl. intros c [H K].
  apply andb_true_iff in K as [K _]. auto.
Qed.

Lemma convert_joins_converted (main : string) (conds : list string)
    (js prev : list JoinClause) :
  Forall2 (join_converted conds) js
          (fst (convert_joins main prev conds js)).
Proof.
  revert prev. induction js as [|j rest IH]; intros prev; simpl;
    [constructor|].
  pose proof (convert_join_converted main prev conds j) as C.
  destruct (convert_join main prev conds j) as [j' made].
  specialize (IH (prev ++ [j])%list).
  destruct (convert_joins main (prev ++ [j]) conds rest) as [rest' made'].
  now constructor.
Qed.

(** X9.  On a query that has joins, comma-join conversion keeps the FROM
    table, the select items and, join by join, the table and the type of
    every join.  The ON conditions of a join stay as they are, unless the
    join had the placeholder [1=1]: it may then get a non-empty list of
    WHERE conditions that involve its alias. *)
Theorem convertCommaJoins_keeps_joins (sq : SelectQuery) :
  joins sq <> [] ->
  Forall2 (join_converted (where_conditions sq))
          (joins sq) (joins (convertCommaJoins sq))
  /\ from_table (convertCommaJoins sq) = from_table sq
  /\ select_items (convertCommaJoins sq) = select_items sq.
Proof.
  intros N.
  split; [|split; [apply from_table_convertCommaJoins
                  |apply select_items_convertCommaJoins]].
  unfold convertCommaJoins.
  pose proof (convert_joins_converted (alias_or_name (from_table sq))
                (where_conditions sq) (joins sq) []) as C.
  destruct (convert_joins _ _ _ _) as [js made]. simpl in C.
  destruct js as [|j js]; [inversion C; congruence|].
  cbn [joins set_where_conditions set_joins].
  rewrite andb_false_r. exact C.
Qed.

Lemma convertCommaJoins_keeps_joins_witness :
  joins Examples.comma_join_query <> []
  /\ Forall2 (join_converted (where_conditions Examples.comma_join_query))
             (joins Examples.comma_join_query)
             (joins (convertCommaJoins Examples.comma_join_query)).
Proof.
  assert (N : joins Examples.comma_join_query <> []) by discriminate.
  split; [exact N|].
  apply (convertCommaJoins_keeps_joins Examples.comma_join_query N).
Defined.

Lemma reconstruct_joins_reconstructed (main : string)
    (conds aliases : list string) :
  Forall (fun a => a <> main) aliases ->
  Forall (reconstructed main conds) (reconstruct_joins main conds aliases).
Proof.
  induction 1 as [|a rest N _ IH]; simpl; [constructor|].
  unfold reconstruct_join.
  match goal with
  | |- context [filter ?f conds] =>
      pose proof (filter_forall _ f conds) as F; destruct (filter f conds)
  end; [assumption|].
  constructor; [|assumption].
  unfold reconstructed. simpl. repeat split; [assumption|discriminate|].
  eapply Forall_impl; [|exact F]. simpl. intros c [H K].
  apply andb_true_iff in K as [K _]. auto.
Qed.

Lemma set_erase_erased (x : string) (s : list string) :
  Forall (fun a => a <> x) (set_erase x s).
Proof.
  unfold set_erase. apply Forall_forall. intros a H.
  apply filter_In in H as [_ H]. apply negb_true_iff in H.
  now apply String.eqb_neq.
Qed.

Lemma joins_convertCommaJoins_without_joins (sq : SelectQuery) :
  joins sq = [] ->
  joins (convertCommaJoins sq)
  = reconstruct_joins (alias_or_name (from_table sq)) (where_conditions sq)
      (set_erase (alias_or_name (from_table sq))
                 (collect_aliases (where_conditions sq) [])).
Proof.
  intros E. unfold convertCommaJoins. rewrite E.
  cbn [convert_joins negb andb joins set_where_conditions set_joins].
  rewrite filter_no_joins.
  cbn [where_conditions set_where_conditions].
  destruct (where_conditions sq) as [|c l]; [reflexivity|].
  unfold reconstructCommaJoins.
  cbn [where_conditions joins from_table set_where_conditions set_joins].
  destruct (reconstruct_joins _ _ _); reflexivity.
Qed.

(** X10.  On a query without joins, every join that comma-join conversion
    leaves is a reconstructed one: an INNER join on another alias than that
    of the FROM table, whose table has no pushed filters and whose ON
    conditions are a non-empty list of WHERE conditions that contain the
    alias followed by a dot. *)
Theorem convertCommaJoins_reconstructs (sq : SelectQuery) :
  joins sq = [] ->
  Forall (reconstructed (alias_or_name (from_table sq))
                        (where_conditions sq))
         (joins (convertCommaJoins sq)).
Proof.
  intros E. rewrite (joins_convertCommaJoins_without_joins _ E).
  apply reconstruct_joins_reconstructed, set_erase_erased.
Qed.

Lemma convertCommaJoins_reconstructs_witness :
  joins (Examples.query (mkTableRef "a" "" []) [] ["a.x = b.x"; "a.z = 3"])
  = []
  /\ Forall (reconstructed "a" ["a.x = b.x"; "a.z = 3"])
            (joins (convertCommaJoins
                      (Examples.query (mkTableRef "a" "" []) []
                                      ["a.x = b.x"; "a.z = 3"])))
  /\ map (fun j => name (table j))
         (joins (convertCommaJoins
                   (Examples.query (mkTableRef "a" "" []) []
                                   ["a.x = b.x"; "a.z = 3"])))
     = ["b"].
Proof.
  split; [reflexivity|]. split; [|reflexivity].
  apply (convertCommaJoins_reconstructs
           (Examples.query (mkTableRef "a" "" []) []
                           ["a.x = b.x"; "a.z = 3"]) eq_refl).
Defined.

Lemma convert_item_result (item item' : SelectItem) (j : JoinClause) :
  convert_item item = Some (j, item') ->
  item_converted item item'
  /\ type j = LEFT /\ List.length (on_conds j) = 1.
Proof.
  unfold convert_item, item_converted.
  destruct (_ && _)%bool; [|discriminate].
  repeat (destruct (_ && _)%bool;
          [intros E; inversion E; simpl; auto|]).
  destruct (Regex.regex_search _ _) as [m|] eqn:S; [|discriminate].
  intros E. inversion E. subst. clear E. simpl. repeat split. right.
  apply regex_search_matches in S as (s' & r & S).
  apply generic_pattern_words in S as [Ha Hc].
  pose proof (dotted_name_has_no_subquery _ _ Ha Hc) as D.
  exact D.
Qed.

Lemma convert_items_result (items : list SelectItem) :
  Forall2 item_converted items (fst (fst (convert_items items)))
  /\ Forall (fun j => type j = LEFT /\ List.length (on_conds j) = 1)
            (snd (fst (convert_items items))).
Proof.
  induction items as [|item rest [IH1 IH2]]; simpl;
    [split; constructor|].
  destruct (convert_items rest) as [[items0 js0] made0]. simpl in *.
  destruct (convert_item item) as [[j item1]|] eqn:C; simpl.
  - apply convert_item_result in C as (C1 & C2 & C3).
    split; constructor; auto.
  - split; [|assumption]. constructor; [|assumption].
    split; auto.
Qed.

Lemma item_converted_refl (items : list SelectItem) :
  Forall2 item_converted items items.
Proof.
  induction items; constructor; [split; auto|assumption].
Qed.

(** X11.  Subquery conversion keeps the number, the order and the aliases
    of the select items; an item is kept as it is or gets an expression
    without subquery.  The joins of the query stay in front, followed by the
    new joins, which are LEFT joins with one ON condition each.  The FROM
    table and the WHERE conditions are not touched. *)
Theorem convertSubqueriesToJoins_shape (sq : SelectQuery) :
  Forall2 item_converted (select_items sq)
          (select_items (convertSubqueriesToJoins sq))
  /\ (exists extra,
        joins (convertSubqueriesToJoins sq) = (joins sq ++ extra)%list
        /\ Forall (fun j => type j = LEFT /\ List.length (on_conds j) = 1)
                  extra)
  /\ from_table (convertSubqueriesToJoins sq) = from_table sq
  /\ where_conditions (convertSubqueriesToJoins sq) = where_conditions sq.
Proof.
  split; [|split; [|split; [apply from_table_convertSubqueriesToJoins
                           |apply where_convertSubqueriesToJoins]]].
  - unfold convertSubqueriesToJoins.
    destruct (convert_items_result (select_items sq)) as [R _].
    destruct (convert_items _) as [[items js] made] eqn:E. simpl in R.
    destruct made; [exact R|apply item_converted_refl].
  - unfold convertSubqueriesToJoins.
    destruct (convert_items_result (select_items sq)) as [_ R].
    destruct (convert_items _) as [[items js] made]. simpl in R.
    destruct made.
    + exists js. auto.
    + exists []. rewrite app_nil_r. split; [reflexivity|constructor].
Qed.

(** ** The rewritten SQL *)

(** The projections of a query that is given by its fields. *)
Ltac query_fields :=
  cbn [set_distinct set_where_conditions set_joins set_select_items
       set_from_table distinct select_items from_table joins
       where_conditions group_by having_conditions order_by limit
       subqueries].

Lemma convertCommaJoins_distinct (sq : SelectQuery) (d : bool) :
  convertCommaJoins (set_distinct sq d)
  = set_distinct (convertCommaJoins sq) d.
Proof.
  destruct sq as [d0 items from js conds gb hv ob lim subs].
  unfold convertCommaJoins, reconstructCommaJoins. query_fields.
  destruct (convert_joins _ _ _ _) as [js' made].
  destruct (negb made && _ && _)%bool; [|reflexivity].
  query_fields. destruct (reconstruct_joins _ _ _); reflexivity.
Qed.

Lemma convertSubqueriesToJoins_distinct (sq : SelectQuery) (d : bool) :
  convertSubqueriesToJoins (set_distinct sq d)
  = set_distinct (convertSubqueriesToJoins sq) d.
Proof.
  unfold convertSubqueriesToJoins. cbn [set_distinct select_items].
  destruct (convert_items _) as [[items js] []]; reflexivity.
Qed.

Lemma pushdownPredicates_distinct (sq : SelectQuery) (d : bool) :
  pushdownPredicates (set_distinct sq d)
  = set_distinct (pushdownPredicates sq) d.
Proof.
  unfold pushdownPredicates. cbn [set_distinct joins].
  destruct (joins sq); reflexivity.
Qed.

Lemma reorderJoins_distinct (sq : SelectQuery) (d : bool) :
  reorderJoins (set_distinct sq d) = set_distinct (reorderJoins sq) d.
Proof.
  unfold reorderJoins. cbn [set_distinct joins].
  destruct (Nat.ltb _ _); reflexivity.
Qed.

(** X12.  The rewriter does not look at the [distinct] flag, and the
    serializer does not emit it: the rewritten SQL of a query is the same
    with and without DISTINCT. *)
Theorem rewritten_sql_ignores_distinct (sq : SelectQuery) (d : bool) :
  rewrite (set_distinct sq d) = set_distinct (rewrite sq) d
  /\ Optimizer.selectQueryToSQL (rewrite (set_distinct sq d))
     = Optimizer.selectQueryToSQL (rewrite sq).
Proof.
  assert (E : rewrite (set_distinct sq d) = set_distinct (rewrite sq) d).
  { unfold rewrite, pushdownProjections.
    now rewrite convertCommaJoins_distinct,
      convertSubqueriesToJoins_distinct, pushdownPredicates_distinct,
      reorderJoins_distinct. }
  split; [exact E|]. now rewrite E.
Qed.

(** X13.  Predicate pushdown does not show in the SQL: for a query whose
    FROM table has no pushed filters yet, the serialization is the same
    before and after [pushdownPredicates]. *)
Theorem pushdown_keeps_sql (sq : SelectQuery) :
  pushedFilters (from_table sq) = [] ->
  Optimizer.selectQueryToSQL (pushdownPredicates sq)
  = Optimizer.selectQueryToSQL sq.
Proof.
  intros P. unfold pushdownPredicates.
  destruct (joins sq) eqn:J; [|reflexivity].
  unfold Optimizer.selectQueryToSQL.
  cbn [set_where_conditions set_from_table set_pushedFilters select_items
       from_table joins where_conditions group_by having_conditions
       order_by limit pushedFilters].
  rewrite P, J, app_nil_r. reflexivity.
Qed.

Lemma pushdown_keeps_sql_witness :
  pushedFilters (from_table Examples.single_table_query) = []
  /\ Optimizer.selectQueryToSQL
       (pushdownPredicates Examples.single_table_query)
     = "SELECT * FROM users WHERE id = 42".
Proof.
  split; [reflexivity|].
  rewrite (pushdown_keeps_sql Examples.single_table_query eq_refl).
  reflexivity.
Defined.

(** ** Splitting and joining predicates *)

Lemma append_nil_r (s : string) : s ++ "" = s.
Proof. induction s as [|c s IH]; simpl; [|rewrite IH]; reflexivity. Qed.

Lemma append_assoc (a b c : string) : (a ++ b) ++ c = a ++ b ++ c.
Proof. induction a as [|x a IH]; simpl; [|rewrite IH]; reflexivity. Qed.

Lemma contains_false_inv (t : string) (c : ascii) (rest : string) :
  Str.contains t (String c rest) = false ->
  prefix t (String c rest) = false /\ Str.contains t rest = false.
Proof.
  change (Str.contains t (String c rest))
    with (if prefix t (String c rest) then true else Str.contains t rest).
  destruct (prefix t (String c rest)); [discriminate|auto].
Qed.

(** Characters compared with characters of the delimiters. *)
Ltac compare_chars :=
  repeat match goal with
         | H : context [ascii_dec ?a ?b] |- _ =>
             destruct (ascii_dec a b); subst; try discriminate; try congruence
         | |- context [ascii_dec ?a ?b] =>
             destruct (ascii_dec a b); subst; try discriminate; try congruence
         end.

(** What may follow a predicate in the text that [joinPredicates] makes
    with one of the two delimiters: no delimiter starts inside the
    predicate. *)
Lemma no_false_and (s tail : string) :
  prefix " AND " (s ++ " ") = false -> ends_clean s = true ->
  (tail = "" \/ (exists x, tail = " AND " ++ x)
   \/ (exists x, tail = " OR " ++ x)) ->
  prefix " AND " (s ++ tail) = false.
Proof.
  intros P E T.
  destruct s as [|c1 [|c2 [|c3 [|c4 [|c5 s]]]]];
    destruct T as [->|[[x ->]|[x ->]]];
    cbn [append prefix ends_clean] in *;
    compare_chars; try reflexivity; try discriminate;
    try (exfalso; destruct (s ++ " "); discriminate P).
Qed.

Lemma no_false_or (s tail : string) :
  prefix " OR " (s ++ " ") = false -> ends_clean s = true ->
  (tail = "" \/ (exists x, tail = " AND " ++ x)
   \/ (exists x, tail = " OR " ++ x)) ->
  prefix " OR " (s ++ tail) = false.
Proof.
  intros P E T.
  destruct s as [|c1 [|c2 [|c3 [|c4 s]]]];
    destruct T as [->|[[x ->]|[x ->]]];
    cbn [append prefix ends_clean] in *;
    compare_chars; try reflexivity; try discriminate;
    try (exfalso; destruct (s ++ " "); discriminate P).
Qed.

(** The loop passes over a predicate that holds no delimiter and no
    parenthesis, and collects it in the segment. *)
Lemma split_loop_through (s : string) :
  forall seg tail,
    ends_clean s = true ->
    Str.all_chars no_parenthesis s = true ->
    Str.contains " AND " (s ++ " ") = false ->
    Str.contains " OR " (s ++ " ") = false ->
    tail = "" \/ (exists x, tail = " AND " ++ x)
    \/ (exists x, tail = " OR " ++ x) ->
    split_loop (s ++ tail) 0 0 seg = split_loop tail 0 0 (seg ++ s).
Proof.
  induction s as [|c rest IH]; intros seg tail E N A O T; [discriminate|].
  change (String c rest ++ " ") with (String c (rest ++ " ")) in A, O.
  apply contains_false_inv in A, O. destruct A as [PA A], O as [PO O].
  apply (no_false_and (String c rest) tail) in PA; [|exact E|exact T].
  apply (no_false_or (String c rest) tail) in PO; [|exact E|exact T].
  cbn [Str.all_chars] in N. apply andb_true_iff in N. destruct N as [Nc N].
  unfold no_parenthesis in Nc. apply negb_true_iff, orb_false_iff in Nc.
  destruct Nc as [N1 N2].
  change (String c rest ++ tail) with (String c (rest ++ tail)) in *.
  cbn [split_loop]. rewrite N1, N2, PA, PO.
  destruct rest as [|d rest].
  - reflexivity.
  - rewrite (IH (seg ++ String c "") tail); auto.
    rewrite append_assoc. reflexivity.
Qed.

Lemma drop_while_end_clean (s : string) :
  ends_clean s = true -> Str.drop_while_end is_blank s = s.
Proof.
  induction s as [|c rest IH]; intros E; [discriminate|].
  cbn [Str.drop_while_end]. destruct rest as [|d rest].
  - cbn [ends_clean] in E. apply negb_true_iff in E.
    cbn [Str.drop_while_end Str.is_empty andb]. rewrite E. reflexivity.
  - rewrite IH by exact E. reflexivity.
Qed.

Lemma trim_segment_clean (s : string) :
  starts_clean s = true -> ends_clean s = true -> trim_segment s = s.
Proof.
  intros S E. unfold trim_segment. destruct s as [|c rest]; [discriminate|].
  cbn [starts_clean] in S. apply negb_true_iff in S.
  cbn [Str.drop_while]. rewrite S. apply drop_while_end_clean, E.
Qed.

Lemma push_segment_clean (s : string) (result : list string) :
  starts_clean s = true -> ends_clean s = true ->
  push_segment s result = s :: result.
Proof.
  intros S E. unfold push_segment. rewrite trim_segment_clean by assumption.
  destruct s; [discriminate|reflexivity].
Qed.

Lemma split_loop_and (x seg : string) :
  split_loop (" AND " ++ x) 0 0 seg = push_segment seg (split_loop x 0 0 "").
Proof. destruct x; reflexivity. Qed.

Lemma split_loop_or (x seg : string) :
  split_loop (" OR " ++ x) 0 0 seg = push_segment seg (split_loop x 0 0 "").
Proof. destruct x; reflexivity. Qed.

Lemma joinPredicates_cons (op first : string) (rest : list string) :
  joinPredicates (first :: rest) op
  = first ++ fold_right (fun q acc => op ++ q ++ acc) "" rest.
Proof.
  unfold joinPredicates. revert first.
  induction rest as [|q rest IH]; intros first; cbn [fold_left fold_right].
  - rewrite append_nil_r. reflexivity.
  - rewrite IH. rewrite !append_assoc. reflexivity.
Qed.

Lemma split_joined (op : string) (rest : list string) :
  op = " AND " \/ op = " OR " ->
  forall p,
    Forall plain_predicate (p :: rest) ->
    split_loop (p ++ fold_right (fun q acc => op ++ q ++ acc) "" rest) 0 0 ""
    = p :: rest.
Proof.
  intros Op. induction rest as [|q rest IH]; intros p F;
    inversion F as [|? ? [S [E [N [A O]]]] F']; subst; cbn [fold_right].
  - rewrite split_loop_through; auto.
    apply push_segment_clean; assumption.
  - rewrite split_loop_through; auto.
    + cbn [append]. destruct Op as [-> | ->].
      * rewrite split_loop_and, (IH q F').
        apply push_segment_clean; assumption.
      * rewrite split_loop_or, (IH q F').
        apply push_segment_clean; assumption.
    + destruct Op as [-> | ->]; [right; left|right; right]; eexists;
        reflexivity.
Qed.

(** X14. Splitting what [joinPredicates] made with [" AND "] or [" OR "]
    gives the predicates back, when each of them is non-empty, has no
    white space at its ends, no parenthesis, and holds neither delimiter
    (also not with the blank that follows it in the joined text). *)
Theorem split_of_joined (preds : list string) (op : string) :
  op = " AND " \/ op = " OR " ->
  Forall plain_predicate preds ->
  splitPredicates (joinPredicates preds op) = preds.
Proof.
  intros Op F. destruct preds as [|p rest]; [reflexivity|].
  rewrite joinPredicates_cons. apply split_joined; assumption.
Qed.

Lemma drop_while_starts (s : string) :
  Str.drop_while is_blank s = ""
  \/ starts_clean (Str.drop_while is_blank s) = true.
Proof.
  induction s as [|c rest IH]; [left; reflexivity|].
  cbn [Str.drop_while]. destruct (is_blank c) eqn:B; [exact IH|].
  right. cbn [starts_clean]. rewrite B. reflexivity.
Qed.

Lemma drop_while_end_ends (s : string) :
  Str.drop_while_end is_blank s = ""
  \/ ends_clean (Str.drop_while_end is_blank s) = true.
Proof.
  induction s as [|c rest IH]; [left; reflexivity|].
  cbn [Str.drop_while_end].
  destruct IH as [-> | IH].
  - cbn [Str.is_empty andb]. destruct (is_blank c) eqn:B; [left; reflexivity|].
    right. cbn [ends_clean]. rewrite B. reflexivity.
  - destruct (Str.drop_while_end is_blank rest) as [|d rest'];
      [discriminate|].
    right. exact IH.
Qed.

Lemma drop_while_end_starts (s : string) :
  starts_clean s = true ->
  Str.drop_while_end is_blank s = ""
  \/ starts_clean (Str.drop_while_end is_blank s) = true.
Proof.
  destruct s as [|c rest]; [discriminate|]. intros S.
  cbn [Str.drop_while_end].
  destruct (Str.is_empty _ && is_blank c)%bool; [left; reflexivity|].
  right. exact S.
Qed.

Lemma trim_segment_trimmed (seg : string) :
  trim_segment seg = ""
  \/ (starts_clean (trim_segment seg) = true
      /\ ends_clean (trim_segment seg) = true).
Proof.
  unfold trim_segment.
  destruct (drop_while_starts seg) as [-> | S]; [left; reflexivity|].
  destruct (drop_while_end_starts _ S) as [E | S']; [left; exact E|].
  destruct (drop_while_end_ends (Str.drop_while is_blank seg)) as [E | E'];
    [left; exact E|].
  right. split; assumption.
Qed.

Lemma push_segment_trimmed (seg : string) (result : list string) :
  Forall (fun p => starts_clean p = true /\ ends_clean p = true) result ->
  Forall (fun p => starts_clean p = true /\ ends_clean p = true)
    (push_segment seg result).
Proof.
  intros F. unfold push_segment.
  destruct (trim_segment_trimmed seg) as [-> | T]; [exact F|].
  destruct (Str.is_empty (trim_segment seg)); [exact F|].
  constructor; assumption.
Qed.

Lemma split_loop_trimmed (s : string) :
  forall skip depth seg,
    Forall (fun p => starts_clean p = true /\ ends_clean p = true)
      (split_loop s skip depth seg).
Proof.
  induction s as [|c rest IH]; intros skip depth seg.
  - apply push_segment_trimmed. constructor.
  - cbn [split_loop]. destruct skip as [|k]; [|apply IH].
    destruct (if Ascii.eqb c "(" then S depth
              else if Ascii.eqb c ")" then Nat.pred depth else depth);
      [|apply IH].
    destruct (prefix " AND " (String c rest));
      [apply push_segment_trimmed, IH|].
    destruct (prefix " OR " (String c rest));
      [apply push_segment_trimmed, IH|apply IH].
Qed.

(** X15. Every segment that [splitPredicates] returns is non-empty and has
    no blank, tab, line feed or carriage return at either end, whatever
    the text. *)
Theorem split_segments_trimmed (predicates : string) :
  Forall (fun p => starts_clean p = true /\ ends_clean p = true)
    (splitPredicates predicates).
Proof. apply split_loop_trimmed. Qed.

Lemma split_of_joined_witness :
  splitPredicates (joinPredicates ["a = 1"; "b < 2"; "c"] " AND ")
  = ["a = 1"; "b < 2"; "c"].
Proof.
  apply split_of_joined; [left; reflexivity|].
  repeat constructor; vm_compute; reflexivity.
Defined.

(** * Properties of the plan generator *)

Import PlanGenerator.

Section PlanFacts.

Variable truncated_product : Z -> Q -> Z.

Lemma spine_finish_plan (sq : SelectQuery) (base : PlanNode) :
  spine (finish_plan truncated_product sq base)
  = (operators sq ++ spine base)%list.
Proof.
  unfold finish_plan, operators, generateLimitPlan, generateSortPlan,
    generateAggregatePlan, generateFilterPlan.
  destruct (select_items sq), (Z.eqb (size_t (limit sq)) 0), (order_by sq),
    (where_conditions sq); reflexivity.
Qed.

Lemma conditions_finish_plan (sq : SelectQuery) (base : PlanNode) :
  plan_conditions (finish_plan truncated_product sq base)
  = (where_conditions sq ++ plan_conditions base)%list.
Proof.
  unfold finish_plan, generateLimitPlan, generateSortPlan,
    generateAggregatePlan, generateFilterPlan.
  destruct (select_items sq), (Z.eqb (size_t (limit sq)) 0), (order_by sq),
    (where_conditions sq); reflexivity.
Qed.

Lemma size_t_positive (z : Z) : Z.eqb (size_t z) 0 = false -> (1 <= size_t z)%Z.
Proof.
  intros H. apply Z.eqb_neq in H. unfold size_t in *.
  pose proof (Z.mod_pos_bound z (2 ^ 64) ltac:(lia)). lia.
Qed.

Lemma rows_finish_plan (sq : SelectQuery) (base : PlanNode) :
  (1 <= node_rows (finish_plan truncated_product sq base))%Z
  /\ (group_by sq = [] ->
      node_rows (finish_plan truncated_product sq base) = 1%Z).
Proof.
  unfold finish_plan, generateLimitPlan, generateSortPlan,
    generateAggregatePlan.
  destruct (Z.eqb (size_t (limit sq)) 0) eqn:L;
    [|apply size_t_positive in L];
    destruct (select_items sq), (order_by sq), (group_by sq);
    cbn [node_rows]; split; try discriminate; try lia.
Qed.

Lemma scan_plans_leaves (stats : StatisticsManager) (table alias : string) :
  Forall (fun p => node_type p = SCAN \/ node_type p = INDEX_SCAN)
         (generateScanPlans truncated_product stats table alias).
Proof.
  unfold generateScanPlans. destruct (getTableStats stats table) as [ts|];
    [|constructor].
  constructor; [left; reflexivity|].
  apply Forall_forall. intros p H. apply in_flat_map in H as (idx & _ & H).
  apply in_map_iff in H as (col & <- & _). right. reflexivity.
Qed.

Lemma scan_spine (p : PlanNode) :
  node_type p = SCAN \/ node_type p = INDEX_SCAN ->
  spine p = [node_type p] /\ plan_conditions p = [].
Proof. destruct p; intros [H|H]; try discriminate; auto. Qed.

(** The scans that the single-table branch works on. *)
Lemma single_table_scans (stats : StatisticsManager) (sq : SelectQuery) :
  joins sq = [] ->
  exists scans,
    generatePlans truncated_product stats sq
    = map (finish_plan truncated_product sq) scans
    /\ Forall (fun p => node_type p = SCAN \/ node_type p = INDEX_SCAN) scans
    /\ List.length scans
       = match getTableStats stats (name (from_table sq)) with
         | None => 1
         | Some ts =>
             S (List.length (flat_map columns (available_indexes ts)))
         end.
Proof.
  intros J. unfold generatePlans, generatePlans_join. rewrite J.
  pose proof (scan_plans_leaves stats (name (from_table sq))
                (alias (from_table sq))) as F.
  unfold generateScanPlans in *.
  destruct (getTableStats stats (name (from_table sq))) as [ts|].
  - eexists. split; [reflexivity|]. split; [exact F|].
    cbn [List.length]. f_equal. clear F.
    induction (available_indexes ts) as [|idx rest IH]; [reflexivity|].
    cbn [flat_map]. rewrite !length_app, length_map, IH. reflexivity.
  - eexists. split; [reflexivity|]. split; [|reflexivity].
    constructor; [left; reflexivity|constructor].
Qed.

(** X16.  [generatePlans] never returns an empty list.  A query with joins
    gets exactly one plan, whatever the number of its joins and the
    indexes of its tables; a query without joins gets one plan for the
    table scan and one for every column of every index of the table, and
    one plan when the catalog has no table of that exact name. *)
Theorem plan_count (stats : StatisticsManager) (sq : SelectQuery) :
  List.length (generatePlans truncated_product stats sq)
  = match joins sq with
    | [] =>
        match getTableStats stats (name (from_table sq)) with
        | None => 1
        | Some ts =>
            S (List.length (flat_map columns (available_indexes ts)))
        end
    | _ :: _ => 1
    end.
Proof.
  destruct (joins sq) as [|j rest] eqn:J.
  - destruct (single_table_scans stats sq J) as (scans & -> & _ & L).
    rewrite length_map. exact L.
  - unfold generatePlans, generatePlans_join. rewrite J. reflexivity.
Qed.

(** X17.  Every plan has the same chain of operators, from the root down:
    PROJECT when the select list is not empty, LIMIT unless the limit
    converts to zero, SORT when there is an ORDER BY, AGGREGATE in every
    case, FILTER when there are WHERE conditions, and then a table or
    index scan for a query without joins and the one join otherwise. *)
Theorem plan_shape (stats : StatisticsManager) (sq : SelectQuery)
    (p : PlanNode) :
  In p (generatePlans truncated_product stats sq) ->
  exists leaf,
    spine p = (operators sq ++ [leaf])%list
    /\ match joins sq with
       | [] => leaf = SCAN \/ leaf = INDEX_SCAN
       | _ :: _ => leaf = JOIN
       end.
Proof.
  intros H. destruct (joins sq) as [|j rest] eqn:J.
  - destruct (single_table_scans stats sq J) as (scans & E & F & _).
    rewrite E in H. apply in_map_iff in H as (base & <- & H).
    rewrite Forall_forall in F. specialize (F base H).
    exists (node_type base). rewrite spine_finish_plan.
    destruct (scan_spine base F) as [-> _]. auto.
  - unfold generatePlans, generatePlans_join in H. rewrite J in H.
    destruct H as [<-|[]]. exists JOIN.
    rewrite spine_finish_plan. auto.
Qed.

(** X18.  The root of every plan is estimated to give at least one row,
    and exactly one row when the query has no GROUP BY, whatever the
    statistics of its tables and its limit. *)
Theorem plan_rows (stats : StatisticsManager) (sq : SelectQuery)
    (p : PlanNode) :
  In p (generatePlans truncated_product stats sq) ->
  (1 <= node_rows p)%Z /\ (group_by sq = [] -> node_rows p = 1%Z).
Proof.
  intros H. unfold generatePlans in H.
  destruct (generatePlans_join stats sq).
  - destruct H as [<-|[]]. apply rows_finish_plan.
  - apply in_map_iff in H as (base & <- & _). apply rows_finish_plan.
Qed.

Lemma generatePlans_conditions (stats : StatisticsManager) (sq : SelectQuery)
    (p : PlanNode) :
  In p (generatePlans truncated_product stats sq) ->
  plan_conditions p
  = (where_conditions sq
     ++ match joins sq with [] => [] | j :: _ => on_conds j end)%list.
Proof.
  intros H. destruct (joins sq) as [|j rest] eqn:J.
  - destruct (single_table_scans stats sq J) as (scans & E & F & _).
    rewrite E in H. apply in_map_iff in H as (base & <- & H).
    rewrite Forall_forall in F. specialize (F base H).
    rewrite conditions_finish_plan.
    destruct (scan_spine base F) as [_ ->]. reflexivity.
  - unfold generatePlans, generatePlans_join in H. rewrite J in H.
    destruct H as [<-|[]]. rewrite conditions_finish_plan. reflexivity.
Qed.

(** X19.  The predicates in the nodes of a plan are the WHERE conditions
    of the query followed by the ON conditions of its first join: the
    pushed filters of the tables and the joins after the first one leave
    no trace in the plan. *)
Theorem plan_predicates (stats : StatisticsManager) (sq : SelectQuery)
    (p : PlanNode) :
  In p (generatePlans truncated_product stats sq) ->
  plan_conditions p
  = (where_conditions sq
     ++ match joins sq with [] => [] | j :: _ => on_conds j end)%list.
Proof. apply generatePlans_conditions. Qed.

(** X20.  The plans of a rewritten query that has no joins hold no
    predicate at all: the rewriter has moved the WHERE conditions to the
    pushed filters of the FROM table, which the plan generator does not
    read. *)
Theorem rewritten_plan_without_predicates (stats : StatisticsManager)
    (sq : SelectQuery) (p : PlanNode) :
  joins (rewrite sq) = [] ->
  In p (generatePlans truncated_product stats (rewrite sq)) ->
  plan_conditions p = []
  /\ pushedFilters (from_table (rewrite sq))
     = where_conditions (convertCommaJoins sq).
Proof.
  intros J H. pose proof (rewrite_filters sq) as R.
  rewrite (rewrite_no_joins sq J) in R. destruct R as [W P].
  split; [|exact P].
  rewrite (generatePlans_conditions stats (rewrite sq) p H), W, J. reflexivity.
Qed.

End PlanFacts.

Lemma plan_shape_witness :
  exists leaf,
    spine users_index_plan
    = (operators Examples.single_table_query ++ [leaf])%list
    /\ (leaf = SCAN \/ leaf = INDEX_SCAN).
Proof.
  apply (plan_shape exact_truncated_product Examples.catalog
           Examples.single_table_query users_index_plan).
  vm_compute. right. left. reflexivity.
Defined.

Lemma plan_rows_witness :
  (1 <= node_rows users_index_plan)%Z
  /\ (group_by Examples.single_table_query = [] ->
      node_rows users_index_plan = 1%Z).
Proof.
  apply (plan_rows exact_truncated_product Examples.catalog
           Examples.single_table_query users_index_plan).
  vm_compute. right. left. reflexivity.
Defined.

Lemma plan_predicates_witness :
  plan_conditions users_index_plan = ["id = 42"].
Proof.
  apply (plan_predicates exact_truncated_product Examples.catalog
           Examples.single_table_query users_index_plan).
  vm_compute. right. left. reflexivity.
Defined.

Lemma rewritten_plan_without_predicates_witness :
  plan_conditions users_rewritten_plan = []
  /\ pushedFilters (from_table (rewrite Examples.single_table_query))
     = where_conditions (convertCommaJoins Examples.single_table_query).
Proof.
  apply (rewritten_plan_without_predicates exact_truncated_product
           Examples.catalog Examples.single_table_query
           users_rewritten_plan).
  - reflexivity.
  - vm_compute. left. reflexivity.
Defined.

(** * Further properties of the validator *)

Import Semantic.






(** * The log of the optimizer *)

Import Optimizer.

Lemma convertCommaJoins_some_join (sq : SelectQuery) :
  joins sq <> [] -> joins (convertCommaJoins sq) <> [].
Proof.
  intros N. unfold convertCommaJoins.
  pose proof (convert_joins_converted (alias_or_name (from_table sq))
                (where_conditions sq) (joins sq) []) as C.
  destruct (convert_joins _ _ _ _) as [js made]. simpl in C.
  destruct js as [|j js]; [inversion C; congruence|].
  cbn [joins set_where_conditions set_joins].
  rewrite andb_false_r. discriminate.
Qed.

Lemma rewrite_keeps_some_join (sq : SelectQuery) :
  joins sq <> [] -> joins (rewrite sq) <> [].
Proof.
  intros N E. apply convertCommaJoins_some_join in N.
  apply rewrite_no_joins in E.
  destruct (joins_convertSubqueriesToJoins (convertCommaJoins sq))
    as (extra & X & _).
  rewrite E in X. symmetry in X. apply app_eq_nil in X as [X _]. auto.
Qed.

Lemma has_comma_joins_with_joins (q : SelectQuery) :
  joins q <> [] -> has_comma_joins q = true.
Proof.
  intros N. unfold has_comma_joins.
  destruct (joins q) as [|j rest]; [congruence|].
  cbn [List.length Nat.eqb negb andb].
  destruct (existsb _ _); reflexivity.
Qed.

(** X22.  For every query that has a join, whether it was written with a
    comma or with JOIN ... ON, the log of [optimize] lists the conversion
    of comma joins first and ends with the reordering of the joins and
    with "Pushed filters to appropriate tables", while the rewritten
    query has the WHERE conditions that comma-join conversion left and
    the FROM table of the query, nothing pushed to it. *)
Theorem log_steps_with_joins (q : SelectQuery) (u : bool) :
  joins q <> [] ->
  exists converted,
    log_steps q u
    = ("[comma_join_conversion] Converted comma-separated tables to explicit JOINs"
         :: converted
         ++ ["[join_reordering] Optimized join order";
             "[predicate_pushdown] Pushed filters to appropriate tables"])%list
    /\ where_conditions (rewrite q) = where_conditions (convertCommaJoins q)
    /\ from_table (rewrite q) = from_table q.
Proof.
  intros N. unfold log_steps. rewrite (has_comma_joins_with_joins q N).
  pose proof (rewrite_keeps_some_join q N) as R.
  pose proof (rewrite_filters q) as F.
  destruct (joins (rewrite q)) as [|j rest] eqn:J; [congruence|].
  pose proof (rewrite_some_join q j rest J) as S.
  destruct (joins (convertSubqueriesToJoins (convertCommaJoins q)));
    [congruence|].
  eexists. split; [reflexivity|exact F].
Qed.

(** X23.  The log of [optimize] never lists "Applied filters to table
    scan": a rewritten query without joins has no WHERE conditions left,
    so the step that reports the pushdown is written for no query. *)
Theorem log_never_reports_scan_filters (q : SelectQuery) (u : bool) :
  ~ In "[predicate_pushdown] Applied filters to table scan" (log_steps q u).
Proof.
  unfold log_steps. pose proof (rewrite_filters q) as F.
  destruct (joins (rewrite q)) as [|j rest] eqn:J.
  - rewrite (rewrite_no_joins q J) in F. destruct F as [-> _].
    destruct (has_comma_joins q), (_ || u)%bool; simpl; intuition discriminate.
  - destruct (has_comma_joins q), (_ || u)%bool; simpl; intuition discriminate.
Qed.

Lemma log_steps_with_joins_witness :
  exists converted,
    log_steps Examples.explicit_join_query false
    = ("[comma_join_conversion] Converted comma-separated tables to explicit JOINs"
         :: converted
         ++ ["[join_reordering] Optimized join order";
             "[predicate_pushdown] Pushed filters to appropriate tables"])%list
    /\ where_conditions (rewrite Examples.explicit_join_query)
       = where_conditions (convertCommaJoins Examples.explicit_join_query)
    /\ from_table (rewrite Examples.explicit_join_query)
       = from_table Examples.explicit_join_query.
Proof.
  apply (log_steps_with_joins Examples.explicit_join_query false).
  discriminate.
Defined.
